(** * speculos/mcu/screen.py: the Qt display front end

    A shallow embedding of [PaintWidget], [App] and [Screen] of
    [speculos/mcu/screen.py].  Python integers are [Z], dictionaries are
    [gmap]s, objects are records, and a method that mutates [self] or may
    raise is a computation in a state-and-exception monad: the state
    reached when an exception leaves the method is kept, as in Python. *)

From stdpp Require Import base gmap list.
From Stdlib Require Import ZArith Lia.

Local Open Scope Z_scope.

(** ** Exceptions and the method monad *)

(** The exceptions the module can see.  [ReadError] is the class imported
    from [.readerror]; [OtherError] stands for any exception raised by
    foreign code that is not a [ReadError]. *)
Inductive exn : Type :=
  | ReadError
  | AssertionError
  | KeyError (k : Z)
  | ZeroDivisionError
  | AttributeError
  | OtherError (tag : nat).

Inductive res (A : Type) : Type :=
  | Ret (a : A)
  | Raise (e : exn).
Arguments Ret {A} a.
Arguments Raise {A} e.

Definition M (S A : Type) : Type := S -> res A * S.

Definition ret {S A} (a : A) : M S A := fun s => (Ret a, s).
Definition raise {S A} (e : exn) : M S A := fun s => (Raise e, s).
Definition bind {S A B} (m : M S A) (k : A -> M S B) : M S B :=
  fun s => match m s with
           | (Ret a, s') => k a s'
           | (Raise e, s') => (Raise e, s')
           end.
Definition get {S} : M S S := fun s => (Ret s, s).
Definition modify {S} (f : S -> S) : M S unit := fun s => (Ret tt, f s).

(** [try: m except ReadError: h] *)
Definition try_except_ReadError {S} (m : M S unit) (h : M S unit) : M S unit :=
  fun s => match m s with
           | (Raise ReadError, s') => h s'
           | r => r
           end.

Declare Scope py_scope.
Delimit Scope py_scope with py.
Notation "x <- m ;; k" := (bind m (fun x => k))
  (at level 100, m at next level, right associativity) : py_scope.
Notation "m ;;; k" := (bind m (fun _ => k))
  (at level 100, right associativity) : py_scope.
Local Open Scope py_scope.

(** ** The secure-element link

    [server.seph] is foreign; the front end only calls [handle_button] and
    [handle_finger] on it, so the link is the log of those calls. *)
Inductive seph_call : Type :=
  | handle_button (button : Z) (pressed : bool)
  | handle_finger (x y : Z) (pressed : bool).

Definition BUTTON_LEFT : Z := 1.
Definition BUTTON_RIGHT : Z := 2.

(** Key codes of [Qt.Key]. *)
Definition Key_Left : Z := 0x01000012.
Definition Key_Right : Z := 0x01000014.
Definition Key_Down : Z := 0x01000015.
Definition Key_Q : Z := 0x51.

(** ** class Screen *)
Module Screen.

(** An [IODevice]: its [fileno] and which device it is. *)
Record IODevice : Type := { fileno : Z; device : nat }.

(** A [QSocketNotifier] of type [Read], as far as the module uses it: the
    socket it watches, its enabled flag, and the slots connected to its
    [activated] signal.  Every slot made here is
    [lambda s: self.klass_can_read(klass, s)], so a slot is its [klass]. *)
Record QSocketNotifier : Type :=
  { socket : Z; isEnabled : bool; slots : list IODevice }.

(** [self.notifiers] maps a descriptor to a notifier object; the objects
    live in [children], the [QObject] children of [self.app] (each
    notifier is constructed with the application window as parent, so it
    outlives the Python reference).  [next_object] is the identity the next
    constructed object gets. *)
Record t : Type :=
  { notifiers : gmap Z nat;
    children : gmap nat QSocketNotifier;
    next_object : nat;
    app_close : nat;                  (* calls of [self.app.close()] *)
    seph : list seph_call }.          (* calls on [self.seph], oldest first *)

Definition set_notifiers (f : gmap Z nat -> gmap Z nat) (s : t) : t :=
  {| notifiers := f (notifiers s); children := children s;
     next_object := next_object s; app_close := app_close s; seph := seph s |}.
Definition set_children
    (f : gmap nat QSocketNotifier -> gmap nat QSocketNotifier) (s : t) : t :=
  {| notifiers := notifiers s; children := f (children s);
     next_object := next_object s; app_close := app_close s; seph := seph s |}.

Definition app_close_call : M t unit :=
  modify (fun s =>
    {| notifiers := notifiers s; children := children s;
       next_object := next_object s; app_close := S (app_close s);
       seph := seph s |}).

Definition seph_do (c : seph_call) : M t unit :=
  modify (fun s =>
    {| notifiers := notifiers s; children := children s;
       next_object := next_object s; app_close := app_close s;
       seph := seph s ++ [c] |}).

(** [QSocketNotifier(fd, QSocketNotifier.Read, self.app)]: a new enabled
    notifier with nothing connected. *)
Definition new_QSocketNotifier (fd : Z) : M t nat :=
  fun s =>
    let n := next_object s in
    (Ret n,
     {| notifiers := notifiers s;
        children := <[n := {| socket := fd; isEnabled := true; slots := [] |}]>
                      (children s);
        next_object := S n; app_close := app_close s; seph := seph s |}).

Definition connect (n : nat) (klass : IODevice) : M t unit :=
  modify (set_children (alter (fun q =>
    {| socket := socket q; isEnabled := isEnabled q;
       slots := slots q ++ [klass] |}) n)).

Definition setEnabled (n : nat) (enabled : bool) : M t unit :=
  modify (set_children (alter (fun q =>
    {| socket := socket q; isEnabled := enabled; slots := slots q |}) n)).

Definition disconnect (n : nat) : M t unit :=
  modify (set_children (alter (fun q =>
    {| socket := socket q; isEnabled := isEnabled q; slots := [] |}) n)).

(** [self.notifiers[fd]] *)
Definition notifiers_getitem (fd : Z) : M t nat :=
  fun s => match notifiers s !! fd with
           | Some n => (Ret n, s)
           | None => (Raise (KeyError fd), s)
           end.

(** [self.notifiers.pop(fd)] *)
Definition notifiers_pop (fd : Z) : M t nat :=
  fun s => match notifiers s !! fd with
           | Some n => (Ret n, set_notifiers (delete fd) s)
           | None => (Raise (KeyError fd), s)
           end.

Section Methods.

(** [klass.can_read(s, self)] is foreign: it may change the screen and
    may raise. *)
Variable can_read : IODevice -> Z -> M t unit.

Definition klass_can_read (klass : IODevice) (s : Z) : M t unit :=
  try_except_ReadError (can_read klass s) app_close_call.

Definition add_notifier (klass : IODevice) : M t unit :=
  n <- new_QSocketNotifier (fileno klass) ;;
  connect n klass ;;;
  st <- get ;;
  (if decide (is_Some (notifiers st !! fileno klass))
   then raise AssertionError else ret tt) ;;;
  modify (set_notifiers <[fileno klass := n]>).

Definition enable_notifier (fd : Z) (enabled : bool) : M t unit :=
  n <- notifiers_getitem fd ;;
  setEnabled n enabled.

Definition remove_notifier (fd : Z) : M t unit :=
  enable_notifier fd false ;;;
  n <- notifiers_pop fd ;;
  disconnect n.

Definition buttons : gmap Z Z :=
  <[Key_Left := BUTTON_LEFT]> (<[Key_Right := BUTTON_RIGHT]> ∅).

(** [event.key()] is [key]. *)
Definition _key_event (key : Z) (pressed : bool) : M t unit :=
  if decide (key = Key_Left \/ key = Key_Right) then
    match buttons !! key with
    | Some b => seph_do (handle_button b pressed)
    | None => raise (KeyError key)
    end
  else if decide (key = Key_Down) then
    seph_do (handle_button BUTTON_LEFT pressed) ;;;
    seph_do (handle_button BUTTON_RIGHT pressed)
  else if decide (key = Key_Q /\ pressed = false) then
    app_close_call
  else ret tt.

(** What the Qt event loop does when descriptor [fd] becomes readable:
    every enabled notifier watching [fd] emits [activated], which runs
    its connected slots.  [callbacks st fd] lists the devices whose
    [klass_can_read] would run. *)
Definition callbacks (st : t) (fd : Z) : list IODevice :=
  flat_map (fun '(_, q) =>
              if decide (socket q = fd /\ isEnabled q = true)
              then slots q else [])
           (map_to_list (children st)).

End Methods.

(** *** Vocabulary for the properties *)

(** The registry is consistent when every notifier that can still deliver
    (enabled, with a slot connected) is the one registered for its socket,
    every registered notifier exists and watches the descriptor it is
    registered under, and object identities below [next_object] are the
    only ones in use. *)
Definition consistent (st : t) : Prop :=
  map_Forall (fun m q =>
      (m < next_object st)%nat /\
      (isEnabled q = true -> slots q <> [] ->
       notifiers st !! socket q = Some m))
    (children st) /\
  map_Forall (fun fd n => socket <$> children st !! n = Some fd)
    (notifiers st).

Definition initial : t :=
  {| notifiers := ∅; children := ∅; next_object := 0%nat;
     app_close := 0%nat; seph := [] |}.

(** What [remove_notifier] leaves of a notifier [q]. *)
Definition torn_down (q : QSocketNotifier) : QSocketNotifier :=
  {| socket := socket q; isEnabled := false; slots := [] |}.

(** The screen after [calls] went out on the secure-element link. *)
Definition forwarded (st : t) (calls : list seph_call) : t :=
  {| notifiers := notifiers st; children := children st;
     next_object := next_object st; app_close := app_close st;
     seph := seph st ++ calls |}.

(** The screen after one more [self.app.close()]. *)
Definition close_requested (st : t) : t :=
  {| notifiers := notifiers st; children := children st;
     next_object := next_object st; app_close := S (app_close st);
     seph := seph st |}.

Definition seph_link : IODevice := {| fileno := 5; device := 0 |}.
Definition vnc_link : IODevice := {| fileno := 7; device := 1 |}.

(** Both devices registered on a new screen. *)
Definition two_devices : t :=
  snd (add_notifier vnc_link (snd (add_notifier seph_link initial))).

(** A handler that finds its source exhausted. *)
Definition exhausted : IODevice -> Z -> M t unit :=
  fun _ _ => raise ReadError.

End Screen.

(** ** class PaintWidget *)
Module PaintWidget.

(** The pending pixels [(x, y) -> color] of the frame buffer. *)
Abbreviation dict := (gmap (Z * Z) Z).

Inductive QColor : Type := fromRgb (rgb : Z).
Definition white : QColor := fromRgb 0xffffff.
Definition black : QColor := fromRgb 0.

Record QRect : Type := { rx : Z; ry : Z; rw : Z; rh : Z }.

(** A pixmap is its size and its pixels; only the pixels inside the size
    exist. *)
Record QPixmap : Type :=
  { width : Z; height : Z; pixel : Z -> Z -> QColor }.

Definition inside (p : QPixmap) (x y : Z) : bool :=
  (0 <=? x) && (x <? width p) && (0 <=? y) && (y <? height p).

Definition pixelAt (p : QPixmap) (x y : Z) : option QColor :=
  if inside p x y then Some (pixel p x y) else None.

(** [QPixmap()], the null pixmap. *)
Definition null_pixmap : QPixmap :=
  {| width := 0; height := 0; pixel := fun _ _ => white |}.

(** [QPixmap(size)] followed by [fill]. *)
Definition filled (w h : Z) (c : QColor) : QPixmap :=
  {| width := w; height := h; pixel := fun _ _ => c |}.

(** [QSize / c]: each side is divided and rounded to the nearest integer
    (halves upwards).  Qt leaves a zero divisor undefined; the model then
    has Rocq's [_ / 0 = 0]. *)
Definition qRound_div (n c : Z) : Z := (2 * n + c) / (2 * c).
Definition QSize_div (sz : Z * Z) (c : Z) : Z * Z :=
  (qRound_div (fst sz) c, qRound_div (snd sz) c).

(** A [QPainter] on a pixmap: the device, the current pen, and the
    points it was asked to draw, oldest first. *)
Record QPainter : Type :=
  { device : QPixmap; pen : QColor; points : list (Z * Z * QColor) }.

Definition begin (p : QPixmap) : QPainter :=
  {| device := p; pen := black; points := [] |}.

(** [painter.drawPixmap(0, 0, src)]: the pixels of [src] that fall inside
    the device replace the device's. *)
Definition drawPixmap (src : QPixmap) (qp : QPainter) : QPainter :=
  {| device :=
       {| width := width (device qp); height := height (device qp);
          pixel := fun x y => if inside src x y then pixel src x y
                              else pixel (device qp) x y |};
     pen := pen qp; points := points qp |}.

Definition setPen (c : QColor) (qp : QPainter) : QPainter :=
  {| device := device qp; pen := c; points := points qp |}.

(** [qp.drawPoint(x, y)]: a point outside the device is clipped. *)
Definition drawPoint (x y : Z) (qp : QPainter) : QPainter :=
  {| device :=
       {| width := width (device qp); height := height (device qp);
          pixel := fun x' y' =>
            if inside (device qp) x y && (x' =? x) && (y' =? y)
            then pen qp else pixel (device qp) x' y' |};
     pen := pen qp; points := points qp ++ [(x, y, pen qp)] |}.

(** [pixmap.scaled(w, h)] with the default fast transformation: each
    target pixel takes the source pixel it covers. *)
Definition scaled (w h : Z) (p : QPixmap) : QPixmap :=
  {| width := w; height := h;
     pixel := fun x y => pixel p (x * width p / w) (y * height p / h) |}.

(** The widget with its frame buffer [self.fb].  Dictionaries are Python
    objects: [heap] holds them, [fb_pixels] is the reference stored in
    [self.fb.pixels], and the mirror sink keeps the references it was
    handed.  [vnc] is [None] without a mirror sink, otherwise the
    arguments of the [redraw] calls so far.  [drawn] lists the points
    drawn on off-screen pixmaps, [painted] what was drawn on the widget
    itself, [scaled_calls] the calls of [QPixmap.scaled], [update_calls]
    the repaint requests passed to [QWidget.update] ([None] for the whole
    widget). *)
Record t : Type :=
  { heap : gmap nat dict;
    next_ref : nat;
    fb_pixels : nat;
    fb_workingSnapshot : dict;
    size : Z * Z;
    pixel_size : Z;
    mPixmap : QPixmap;
    vnc : option (list nat);
    drawn : list (Z * Z * QColor);
    painted : list QPixmap;
    scaled_calls : list (Z * Z);
    update_calls : list (option QRect) }.

Definition deref (st : t) (r : nat) : dict := default ∅ (heap st !! r).

(** [self.fb.pixels], the dirty set. *)
Definition dirty (st : t) : dict := deref st (fb_pixels st).

(** Modelled from the spec: [FrameBuffer.screenshot_update_pixels] of
    [speculos/mcu/display.py], which is not part of the sources at hand.
    The spec has every pending [(x, y, color)] applied to the working
    snapshot, which accumulates the commits: pending pixels override the
    snapshot's, the others stay. *)
Definition screenshot_update_pixels (st : t) : t :=
  {| heap := heap st; next_ref := next_ref st; fb_pixels := fb_pixels st;
     fb_workingSnapshot := dirty st ∪ fb_workingSnapshot st;
     size := size st; pixel_size := pixel_size st; mPixmap := mPixmap st;
     vnc := vnc st; drawn := drawn st; painted := painted st;
     scaled_calls := scaled_calls st;
     update_calls := update_calls st |}.

(** [self.vnc.redraw(self.fb.pixels)]: the sink receives the dictionary
    object itself. *)
Definition vnc_redraw (st : t) : t :=
  {| heap := heap st; next_ref := next_ref st; fb_pixels := fb_pixels st;
     fb_workingSnapshot := fb_workingSnapshot st;
     size := size st; pixel_size := pixel_size st; mPixmap := mPixmap st;
     vnc := (fun calls => calls ++ [fb_pixels st]) <$> vnc st;
     drawn := drawn st; painted := painted st;
     scaled_calls := scaled_calls st;
     update_calls := update_calls st |}.

(** The loop of [_redraw] over [self.fb.pixels.items()]. *)
Definition draw_items (items : list (Z * Z * Z)) (qp : QPainter) : QPainter :=
  foldl (fun qp '(x, y, color) => drawPoint x y (setPen (fromRgb color) qp))
        qp items.

Definition _redraw (qp : QPainter) (st : t) : QPainter * t :=
  let qp' := draw_items (map_to_list (dirty st)) qp in
  let st1 := match vnc st with Some _ => vnc_redraw st | None => st end in
  (qp', screenshot_update_pixels st1).

(** [self.mPixmap = pixmap; self.fb.pixels = {}], where [pixmap] is the
    device of [painter]: the frame buffer gets a new empty dictionary, the
    old object is left as it is. *)
Definition commit (painter : QPainter) (st : t) : t :=
  {| heap := <[next_ref st := ∅]> (heap st); next_ref := S (next_ref st);
     fb_pixels := next_ref st;
     fb_workingSnapshot := fb_workingSnapshot st;
     size := size st; pixel_size := pixel_size st;
     mPixmap := device painter;
     vnc := vnc st; drawn := drawn st ++ points painter;
     painted := painted st; scaled_calls := scaled_calls st;
     update_calls := update_calls st |}.

(** The first half of [paintEvent], run when [self.fb.pixels] is not
    empty. *)
Definition flush (st : t) : t :=
  let '(w, h) := QSize_div (size st) (pixel_size st) in
  let painter := drawPixmap (mPixmap st) (begin (filled w h white)) in
  let '(painter', st1) := _redraw painter st in
  commit painter' st1.

(** The second half: draw [self.mPixmap] on the widget, scaled if needed. *)
Definition blit (st : t) : t :=
  let scale := negb (bool_decide (pixel_size st = 1)) in
  let w := width (mPixmap st) * pixel_size st in
  let h := height (mPixmap st) * pixel_size st in
  let copied_pixmap := if scale then scaled w h (mPixmap st) else mPixmap st in
  {| heap := heap st; next_ref := next_ref st; fb_pixels := fb_pixels st;
     fb_workingSnapshot := fb_workingSnapshot st;
     size := size st; pixel_size := pixel_size st; mPixmap := mPixmap st;
     vnc := vnc st; drawn := drawn st;
     painted := painted st ++ [copied_pixmap];
     scaled_calls := scaled_calls st ++ (if scale then [(w, h)] else []);
     update_calls := update_calls st |}.

Definition paintEvent (st : t) : t :=
  blit (if bool_decide (dirty st = ∅) then st else flush st).

(** Truth value of an [Optional[int]] argument. *)
Definition truthy (a : option Z) : bool :=
  match a with Some v => negb (v =? 0) | None => false end.

Definition update (x y w h : option Z) (st : t) : bool * t :=
  let request :=
    if truthy x && truthy y && truthy w && truthy h
    then Some {| rx := default 0 x; ry := default 0 y;
                 rw := default 0 w; rh := default 0 h |}
    else None in
  (negb (bool_decide (dirty st = ∅)),
   {| heap := heap st; next_ref := next_ref st; fb_pixels := fb_pixels st;
      fb_workingSnapshot := fb_workingSnapshot st;
      size := size st; pixel_size := pixel_size st; mPixmap := mPixmap st;
      vnc := vnc st; drawn := drawn st; painted := painted st;
     scaled_calls := scaled_calls st;
      update_calls := update_calls st ++ [request] |}).

(** *** Vocabulary for the properties *)

(** The point a pending item asks the painter for. *)
Definition as_point (item : Z * Z * Z) : Z * Z * QColor :=
  let '(x, y, color) := item in (x, y, fromRgb color).

(** A 4 x 2 screen at scale 2 with a mirror sink and two pending
    pixels. *)
Definition example_widget : t :=
  {| heap := {[ 0%nat := <[(1, 1) := 0]> (<[(3, 0) := 0xffffff]> ∅) ]};
     next_ref := 1;
     fb_pixels := 0;
     fb_workingSnapshot := ∅;
     size := (8, 4);
     pixel_size := 2;
     mPixmap := null_pixmap;
     vnc := Some [];
     drawn := []; painted := []; scaled_calls := []; update_calls := [] |}.

End PaintWidget.

(** ** class App *)
Module App.

Inductive cursor : Type := DragMoveCursor.

(** The fields of the main window the pointer handlers use.
    [mouse_offset] is [None] until the first press sets the attribute;
    [override_cursor] is the application's stack of override cursors and
    [window_pos] the position of the window on the desktop. *)
Record t : Type :=
  { seph : list seph_call;
    _width : Z;
    _height : Z;
    pixel_size : Z;
    box_position_x : Z;
    box_position_y : Z;
    mouse_offset : option (Z * Z);
    override_cursor : list cursor;
    window_pos : Z * Z }.

Definition set_mouse_offset (pos : Z * Z) : M t unit :=
  modify (fun s =>
    {| seph := seph s; _width := _width s; _height := _height s;
       pixel_size := pixel_size s; box_position_x := box_position_x s;
       box_position_y := box_position_y s; mouse_offset := Some pos;
       override_cursor := override_cursor s; window_pos := window_pos s |}).

Definition seph_do (c : seph_call) : M t unit :=
  modify (fun s =>
    {| seph := seph s ++ [c]; _width := _width s; _height := _height s;
       pixel_size := pixel_size s; box_position_x := box_position_x s;
       box_position_y := box_position_y s; mouse_offset := mouse_offset s;
       override_cursor := override_cursor s; window_pos := window_pos s |}).

Definition set_override_cursor (f : list cursor -> list cursor) : M t unit :=
  modify (fun s =>
    {| seph := seph s; _width := _width s; _height := _height s;
       pixel_size := pixel_size s; box_position_x := box_position_x s;
       box_position_y := box_position_y s; mouse_offset := mouse_offset s;
       override_cursor := f (override_cursor s); window_pos := window_pos s |}).

Definition move (pos : Z * Z) : M t unit :=
  modify (fun s =>
    {| seph := seph s; _width := _width s; _height := _height s;
       pixel_size := pixel_size s; box_position_x := box_position_x s;
       box_position_y := box_position_y s; mouse_offset := mouse_offset s;
       override_cursor := override_cursor s; window_pos := pos |}).

(** [self.mouse_offset]: reading the attribute before any press fails. *)
Definition get_mouse_offset : M t (Z * Z) :=
  fun s => match mouse_offset s with
           | Some pos => (Ret pos, s)
           | None => (Raise AttributeError, s)
           end.

(** Python's [a // b] on integers; [Z.div] rounds the same way. *)
Definition floordiv (a b : Z) : M t Z :=
  if decide (b = 0) then raise ZeroDivisionError else ret (a / b).

Definition _get_x_y : M t (Z * Z) :=
  st <- get ;;
  ox <- get_mouse_offset ;;
  qx <- floordiv (fst ox) (pixel_size st) ;;
  let x := qx - (box_position_x st + 1) in
  oy <- get_mouse_offset ;;
  qy <- floordiv (snd oy) (pixel_size st) ;;
  let y := qy - (box_position_y st + 1) in
  ret (x, y).

(** [x >= 0 and x < self._width and y >= 0 and y < self._height] *)
Definition on_screen (st : t) (x y : Z) : bool :=
  (x >=? 0) && (x <? _width st) && (y >=? 0) && (y <? _height st).

(** [pos] is [event.pos()], the pointer position relative to the window. *)
Definition mousePressEvent (pos : Z * Z) : M t unit :=
  set_mouse_offset pos ;;;
  xy <- _get_x_y ;;
  st <- get ;;
  (if on_screen st (fst xy) (snd xy)
   then seph_do (handle_finger (fst xy) (snd xy) true) else ret tt) ;;;
  set_override_cursor (cons DragMoveCursor).

(** The handler never reads its [event]. *)
Definition mouseReleaseEvent (pos : Z * Z) : M t unit :=
  xy <- _get_x_y ;;
  st <- get ;;
  (if on_screen st (fst xy) (snd xy)
   then seph_do (handle_finger (fst xy) (snd xy) false) else ret tt) ;;;
  set_override_cursor (fun l => tail l).

(** [gpos] is [(event.globalX(), event.globalY())]. *)
Definition mouseMoveEvent (gpos : Z * Z) : M t unit :=
  ox <- get_mouse_offset ;;
  oy <- get_mouse_offset ;;
  move (fst gpos - fst ox, snd gpos - snd oy).

(** *** Vocabulary for the properties *)

(** The translation as the specification words it, from a raw
    window-relative position. *)
Definition spec_translate (st : t) (raw : Z * Z) : Z * Z :=
  (raw.1 / pixel_size st - (box_position_x st + 1),
   raw.2 / pixel_size st - (box_position_y st + 1)).

(** The touch command the specification asks for at [raw]: one command
    when the translated point is on the screen, none otherwise. *)
Definition spec_touch (st : t) (raw : Z * Z) (pressed : bool)
  : list seph_call :=
  let '(tx, ty) := spec_translate st raw in
  if (0 <=? tx) && (tx <? _width st) && (0 <=? ty) && (ty <? _height st)
  then [handle_finger tx ty pressed] else [].

(** A handler follows the specification when, at every event position, it
    returns normally having sent exactly [spec_touch] for that position. *)
Definition follows_event_position
    (handler : Z * Z -> M t unit) (pressed : bool) : Prop :=
  forall st raw, pixel_size st <> 0 ->
    (handler raw st).1 = Ret tt /\
    seph (handler raw st).2 = seph st ++ spec_touch st raw pressed.

(** A release is translated from its own position, whatever the press
    before it did. *)
Definition release_independent_of_press : Prop :=
  forall st p r, pixel_size st <> 0 ->
    let st1 := (mousePressEvent p st).2 in
    seph (mouseReleaseEvent r st1).2 = seph st1 ++ spec_touch st1 r false.

(** The window of the specification's example: scale 2, box offset
    (3, 3), a 128 x 128 screen, nothing pressed yet. *)
Definition example_app : t :=
  {| seph := []; _width := 128; _height := 128; pixel_size := 2;
     box_position_x := 3; box_position_y := 3; mouse_offset := None;
     override_cursor := []; window_pos := (10, 10) |}.

End App.

(** ** Calls on a screen, one after the other *)
Module Calls.

Import Screen.

(** The methods of [Screen] that run no foreign code. *)
Inductive call : Type :=
  | AddNotifier (klass : IODevice)
  | EnableNotifier (fd : Z) (enabled : bool)
  | RemoveNotifier (fd : Z)
  | KeyEvent (key : Z) (pressed : bool).

Definition run_call (c : call) : M t unit :=
  match c with
  | AddNotifier klass => add_notifier klass
  | EnableNotifier fd enabled => enable_notifier fd enabled
  | RemoveNotifier fd => remove_notifier fd
  | KeyEvent key pressed => _key_event key pressed
  end.

(** The calls in order; the first exception ends the run. *)
Fixpoint run (cs : list call) : M t unit :=
  match cs with
  | [] => ret tt
  | c :: cs' => run_call c ;;; run cs'
  end.

(** The descriptor a call works on, if any. *)
Definition call_fd (c : call) : option Z :=
  match c with
  | AddNotifier klass => Some (fileno klass)
  | EnableNotifier fd _ => Some fd
  | RemoveNotifier fd => Some fd
  | KeyEvent _ _ => None
  end.

(** Every registered notifier carries exactly the slot its registration
    connected: one device, whose [fileno] is the descriptor. *)
Definition one_slot_each (st : t) : Prop :=
  map_Forall (fun fd n =>
      exists k, slots <$> children st !! n = Some [k] /\ fileno k = fd)
    (notifiers st).

(** [App.keyPressEvent] and [App.keyReleaseEvent] hand the event to the
    screen. *)
Definition keyPressEvent (key : Z) : M t unit := _key_event key true.
Definition keyReleaseEvent (key : Z) : M t unit := _key_event key false.

End Calls.

(** ** App.__init__ and App.closeEvent: where the window goes *)
Module Window.

(** The entry [MODELS[display.model]] of [.display], as far as [__init__]
    reads it. *)
Record Model : Type :=
  { screen_size : Z * Z; box_position : Z * Z; box_size : Z * Z }.

(** The fields of [DisplayArgs] that decide geometry and flags. *)
Record DisplayArgs : Type :=
  { pixel_size : Z; x : option Z; y : option Z; ontop : bool }.

(** [QSettings("ledger", "speculos")]: the two keys the module uses. *)
Record QSettings : Type := { window_x : option Z; window_y : option Z }.

(** The geometry of a screen or of the window. *)
Record QRect : Type := { left : Z; top : Z; rwidth : Z; rheight : Z }.

(** [qt_app]: the geometry of [primaryScreen()] and of each of
    [screens()]. *)
Record QApplication : Type :=
  { primaryScreen : QRect; screens : list QRect }.

Definition DEFAULT_WINDOW_X : Z := 10.
Definition DEFAULT_WINDOW_Y : Z := 10.

(** Window flags of [Qt]. *)
Definition FramelessWindowHint : Z := 0x00000800.
Definition CustomizeWindowHint : Z := 0x02000000.
Definition WindowStaysOnTopHint : Z := 0x00040000.

(** [settings.value(key, default, int)] *)
Definition value (stored : option Z) (default : Z) : Z :=
  match stored with Some v => v | None => default end.

(** The test in the loop over [qt_app.screens()]. *)
Definition fully_visible
    (window_x window_y window_width window_height : Z) (screen : QRect)
    : bool :=
  let x1 := left screen in
  let y1 := top screen in
  let x2 := x1 + rwidth screen - 1 in
  let y2 := y1 + rheight screen - 1 in
  (window_x >=? x1) && (window_y >=? y1) &&
  (window_x + window_width - 1 <=? x2) &&
  (window_y + window_height - 1 <=? y2).

(** What [__init__] leaves: the window's fields for the pointer handlers,
    the geometry and flags it set, where it put the paint widget [self.m]
    and how large, and whether it printed the warning.  The title, the
    palette and the icon are left out. *)
Record t : Type :=
  { app : App.t;
    geometry : QRect;
    fixed_size : Z * Z;
    flags : Z;
    m_pos : Z * Z;
    m_size : Z * Z;
    warned : bool }.

Definition __init__ (qt_app : QApplication) (model : Model)
    (display : DisplayArgs) (settings : QSettings)
    (server_seph : list seph_call) : t :=
  let '(_width, _height) := screen_size model in
  let '(box_position_x, box_position_y) := box_position model in
  let '(box_size_x, box_size_y) := box_size model in
  let current_screen_x := left (primaryScreen qt_app) in
  let current_screen_y := top (primaryScreen qt_app) in
  let window_x :=
    match x display with
    | None => value (window_x settings) (current_screen_x + DEFAULT_WINDOW_X)
    | Some dx => dx
    end in
  let window_y :=
    match y display with
    | None => value (window_y settings) (current_screen_y + DEFAULT_WINDOW_Y)
    | Some dy => dy
    end in
  let window_width := (_width + box_size_x) * pixel_size display in
  let window_height := (_height + box_size_y) * pixel_size display in
  let window_is_visible :=
    existsb (fully_visible window_x window_y window_width window_height)
            (screens qt_app) in
  let window_x :=
    if window_is_visible then window_x
    else current_screen_x + DEFAULT_WINDOW_X in
  let window_y :=
    if window_is_visible then window_y
    else current_screen_y + DEFAULT_WINDOW_Y in
  {| app :=
       {| App.seph := server_seph;
          App._width := _width; App._height := _height;
          App.pixel_size := pixel_size display;
          App.box_position_x := box_position_x;
          App.box_position_y := box_position_y;
          App.mouse_offset := None;
          App.override_cursor := [];
          App.window_pos := (window_x, window_y) |};
     geometry := {| left := window_x; top := window_y;
                    rwidth := window_width; rheight := window_height |};
     fixed_size := (window_width, window_height);
     flags := if ontop display
              then Z.lor FramelessWindowHint
                     (Z.lor CustomizeWindowHint WindowStaysOnTopHint)
              else FramelessWindowHint;
     m_pos := (box_position_x * pixel_size display,
               box_position_y * pixel_size display);
     m_size := (_width * pixel_size display, _height * pixel_size display);
     warned := negb window_is_visible |}.

(** [closeEvent]: the window's position goes into the settings. *)
Definition closeEvent (a : App.t) (settings : QSettings) : QSettings :=
  {| window_x := Some (App.window_pos a).1;
     window_y := Some (App.window_pos a).2 |}.

(** The rectangle [r] lies within the screen [s]. *)
Definition within (r s : QRect) : Prop :=
  left s <= left r /\ top s <= top r /\
  left r + rwidth r <= left s + rwidth s /\
  top r + rheight r <= top s + rheight s.

(** The position [__init__] tries first: the one asked for, else the saved
    one, else the default on the primary screen. *)
Definition requested (qt_app : QApplication) (display : DisplayArgs)
    (settings : QSettings) : Z * Z :=
  (match x display with
   | Some dx => dx
   | None => match window_x settings with
             | Some v => v
             | None => left (primaryScreen qt_app) + 10
             end
   end,
   match y display with
   | Some dy => dy
   | None => match window_y settings with
             | Some v => v
             | None => top (primaryScreen qt_app) + 10
             end
   end).

(** The size [__init__] gives the window. *)
Definition window_size (model : Model) (display : DisplayArgs) : Z * Z :=
  (((screen_size model).1 + (box_size model).1) * pixel_size display,
   ((screen_size model).2 + (box_size model).2) * pixel_size display).

End Window.

(** ** Pointer gestures *)
Module Gesture.

Import App.

(** The move events of a drag, in order. *)
Fixpoint mouseMoveEvents (gs : list (Z * Z)) : M t unit :=
  match gs with
  | [] => ret tt
  | g :: gs' => mouseMoveEvent g ;;; mouseMoveEvents gs'
  end.

(** A press, the moves of the drag, and the release. *)
Definition drag (p : Z * Z) (gs : list (Z * Z)) (r : Z * Z) : M t unit :=
  mousePressEvent p ;;; mouseMoveEvents gs ;;; mouseReleaseEvent r.

End Gesture.

(** ** What a paint event shows, and states for the examples *)
Module Scene.

Import PaintWidget.

(** The pixmap a paint event draws on the widget. *)
Definition shown (st : t) : QPixmap :=
  if bool_decide (pixel_size st = 1) then mPixmap st
  else scaled (width (mPixmap st) * pixel_size st)
              (height (mPixmap st) * pixel_size st) (mPixmap st).

(** [example_widget] after its paint event and one more write, at
    (0, 0). *)
Definition example_widget_later : t :=
  let st1 := paintEvent example_widget in
  {| heap := <[fb_pixels st1 := {[ (0, 0) := 7 ]}]> (heap st1);
     next_ref := next_ref st1;
     fb_pixels := fb_pixels st1;
     fb_workingSnapshot := fb_workingSnapshot st1;
     size := size st1;
     pixel_size := pixel_size st1;
     mPixmap := mPixmap st1;
     vnc := vnc st1;
     drawn := drawn st1; painted := painted st1;
     scaled_calls := scaled_calls st1; update_calls := update_calls st1 |}.

(** The two registrations that give [Screen.two_devices]. *)
Definition two_registrations : list Calls.call :=
  [Calls.AddNotifier Screen.seph_link; Calls.AddNotifier Screen.vnc_link].

(** [App.example_app] with [pixel_size] 0. *)
Definition zero_scale_app : App.t :=
  {| App.seph := []; App._width := 128; App._height := 128;
     App.pixel_size := 0;
     App.box_position_x := 3; App.box_position_y := 3;
     App.mouse_offset := None;
     App.override_cursor := []; App.window_pos := (10, 10) |}.

(** One 1920 x 1080 screen, a 128 x 64 device in a box, scale 2, no
    position asked for and none saved. *)
Definition one_screen : Window.QApplication :=
  {| Window.primaryScreen :=
       {| Window.left := 0; Window.top := 0;
          Window.rwidth := 1920; Window.rheight := 1080 |};
     Window.screens :=
       [{| Window.left := 0; Window.top := 0;
           Window.rwidth := 1920; Window.rheight := 1080 |}] |}.

Definition boxed_model : Window.Model :=
  {| Window.screen_size := (128, 64); Window.box_position := (20, 13);
     Window.box_size := (40, 26) |}.

Definition scale_two : Window.DisplayArgs :=
  {| Window.pixel_size := 2; Window.x := None; Window.y := None;
     Window.ontop := false |}.

Definition no_settings : Window.QSettings :=
  {| Window.window_x := None; Window.window_y := None |}.

(** The 4 x 2 screen [example_widget] belongs to. *)
Definition tiny_model : Window.Model :=
  {| Window.screen_size := (4, 2); Window.box_position := (1, 1);
     Window.box_size := (2, 2) |}.

(** A third device, on a descriptor [Screen.two_devices] does not use. *)
Definition third_link : Screen.IODevice :=
  {| Screen.fileno := 9; Screen.device := 2 |}.

End Scene.

(** * Properties *)

(** ** The multiplexer: [Screen]'s notifiers *)
Section ScreenFacts.

Import Screen.

Variable can_read : IODevice -> Z -> M t unit.

Lemma consistent_initial : consistent initial.
Proof. split; apply map_Forall_empty. Qed.

Lemma add_notifier_fresh klass st :
  notifiers st !! fileno klass = None ->
  add_notifier klass st =
    (Ret tt,
     {| notifiers := <[fileno klass := next_object st]> (notifiers st);
        children :=
          <[next_object st :=
              {| socket := fileno klass; isEnabled := true;
                 slots := [klass] |}]> (children st);
        next_object := S (next_object st);
        app_close := app_close st; seph := seph st |}).
Proof.
  intros Hnone. unfold add_notifier, bind, new_QSocketNotifier, connect,
    modify, get, set_children, set_notifiers. simpl.
  rewrite Hnone. destruct (decide (is_Some None)) as [[? ?]|_]; [done|].
  simpl. by rewrite alter_insert_eq.
Qed.

Lemma add_notifier_duplicate klass st n :
  notifiers st !! fileno klass = Some n ->
  add_notifier klass st =
    (Raise AssertionError,
     {| notifiers := notifiers st;
        children :=
          <[next_object st :=
              {| socket := fileno klass; isEnabled := true;
                 slots := [klass] |}]> (children st);
        next_object := S (next_object st);
        app_close := app_close st; seph := seph st |}).
Proof.
  intros Hsome. unfold add_notifier, bind, new_QSocketNotifier, connect,
    modify, get, set_children, set_notifiers, raise. simpl.
  rewrite Hsome. destruct (decide (is_Some (Some n))) as [_|Hn].
  - simpl. by rewrite alter_insert_eq.
  - exfalso. apply Hn. by exists n.
Qed.

Lemma enable_notifier_registered fd enabled st n :
  notifiers st !! fd = Some n ->
  enable_notifier fd enabled st =
    (Ret tt,
     {| notifiers := notifiers st;
        children :=
          alter (fun q => {| socket := socket q; isEnabled := enabled;
                             slots := slots q |}) n (children st);
        next_object := next_object st;
        app_close := app_close st; seph := seph st |}).
Proof.
  intros Hn. unfold enable_notifier, bind, notifiers_getitem, setEnabled,
    modify, set_children. by rewrite Hn.
Qed.

Lemma enable_notifier_unregistered fd enabled st :
  notifiers st !! fd = None ->
  enable_notifier fd enabled st = (Raise (KeyError fd), st).
Proof.
  intros Hn. unfold enable_notifier, bind, notifiers_getitem. by rewrite Hn.
Qed.

Lemma remove_notifier_registered fd st n :
  notifiers st !! fd = Some n ->
  remove_notifier fd st =
    (Ret tt,
     {| notifiers := delete fd (notifiers st);
        children := alter torn_down n (children st);
        next_object := next_object st;
        app_close := app_close st; seph := seph st |}).
Proof.
  intros Hn. unfold remove_notifier, bind.
  rewrite (enable_notifier_registered _ _ _ n Hn).
  unfold notifiers_pop, disconnect, modify, set_children, set_notifiers.
  simpl. rewrite Hn. simpl. do 2 f_equal.
  by rewrite alter_alter_eq.
Qed.

(** Successful calls keep the registry consistent. *)
Lemma consistent_add_notifier klass st :
  consistent st -> notifiers st !! fileno klass = None ->
  consistent (snd (add_notifier klass st)).
Proof.
  intros [Hc Hn] Hnone. rewrite (add_notifier_fresh _ _ Hnone). simpl.
  split; simpl.
  - intros m q Hm. apply lookup_insert_Some in Hm as [[<- <-]|[Hne Hm]]; simpl.
    + split; [lia|]. intros _ _. apply lookup_insert_eq.
    + destruct (Hc m q Hm) as [Hlt Hreg]. split; [lia|].
      intros He Hs. specialize (Hreg He Hs).
      rewrite lookup_insert_ne; [done|]. congruence.
  - intros fd n Hfd. apply lookup_insert_Some in Hfd as [[<- <-]|[Hne Hfd]].
    + by rewrite lookup_insert_eq.
    + specialize (Hn fd n Hfd). simpl in Hn.
      destruct (children st !! n) as [q|] eqn:Hq; [|done].
      destruct (Hc n q Hq) as [Hlt _].
      rewrite lookup_insert_ne; [by rewrite Hq|lia].
Qed.

Lemma consistent_enable_notifier fd enabled st :
  consistent st -> consistent (snd (enable_notifier fd enabled st)).
Proof.
  intros [Hc Hn]. destruct (notifiers st !! fd) as [n|] eqn:Hfd.
  2: { by rewrite (enable_notifier_unregistered _ _ _ Hfd). }
  rewrite (enable_notifier_registered _ _ _ _ Hfd). split; simpl.
  - intros m q Hm.
    apply lookup_alter_Some in Hm as [(<- & q0 & Hq0 & ->)|[Hne Hm]].
    + simpl. destruct (Hc _ _ Hq0) as [Hlt _]. split; [done|]. intros _ _.
      specialize (Hn fd n Hfd). simpl in Hn. rewrite Hq0 in Hn.
      simpl in Hn. congruence.
    + apply (Hc _ _ Hm).
  - intros fd' n' Hfd'. specialize (Hn fd' n' Hfd'). simpl in *.
    rewrite lookup_alter. case_decide; [subst|done].
    by destruct (children st !! n').
Qed.

Lemma consistent_remove_notifier fd st :
  consistent st -> consistent (snd (remove_notifier fd st)).
Proof.
  intros [Hc Hn]. destruct (notifiers st !! fd) as [n|] eqn:Hfd.
  2: { unfold remove_notifier, bind.
       by rewrite (enable_notifier_unregistered _ _ _ Hfd). }
  rewrite (remove_notifier_registered _ _ _ Hfd). split; simpl.
  - intros m q Hm.
    apply lookup_alter_Some in Hm as [(<- & q0 & Hq0 & ->)|[Hne Hm]].
    + simpl. destruct (Hc _ _ Hq0) as [Hlt _]. split; [done|]. done.
    + destruct (Hc _ _ Hm) as [Hlt Hreg]. split; [done|].
      intros He Hs. specialize (Hreg He Hs).
      rewrite lookup_delete_ne; [done|]. congruence.
  - intros fd' n' Hfd'. apply lookup_delete_Some in Hfd' as [Hne Hfd'].
    specialize (Hn fd' n' Hfd'). simpl in *.
    rewrite lookup_alter. case_decide; [subst|done].
    by destruct (children st !! n').
Qed.

(** No callback is pending for [fd] when every notifier on [fd] is
    disabled or has nothing connected. *)
Lemma callbacks_nil st fd :
  map_Forall (fun _ q => socket q = fd -> isEnabled q = true -> slots q = [])
    (children st) ->
  callbacks st fd = [].
Proof.
  unfold callbacks. rewrite map_Forall_to_list.
  induction 1 as [|[m q] l Hq _ IH]; [done|]. simpl in *.
  rewrite IH, app_nil_r. case_decide as Hd; [|done].
  destruct Hd. by apply Hq.
Qed.

(** C4.  Whatever the registry holds, when a device's [can_read] raises
    [ReadError], [klass_can_read] returns normally from the state the
    handler left, with exactly one more [app.close()] and no second call
    of the handler; any other exception leaves [klass_can_read] with the
    handler's state and no close; a normal return is passed on as it is. *)
Theorem klass_can_read_outcome klass s st r st' :
  can_read klass s st = (r, st') ->
  (r = Raise ReadError ->
     klass_can_read can_read klass s st = (Ret tt, close_requested st') /\
     app_close (close_requested st') = S (app_close st')) /\
  (forall e, r = Raise e -> e <> ReadError ->
     klass_can_read can_read klass s st = (Raise e, st')) /\
  (r = Ret tt -> klass_can_read can_read klass s st = (Ret tt, st')).
Proof.
  intros Hrun. unfold klass_can_read, try_except_ReadError. rewrite Hrun.
  split; [|split].
  - intros ->. done.
  - intros e -> Hne. by destruct e.
  - intros ->. done.
Qed.

(** C5.  Registering a device whose descriptor is already registered
    raises [AssertionError] and leaves [notifiers] as it was; once that
    descriptor has been removed, registering the device succeeds, and the
    descriptor maps to a new notifier that is enabled and connected to
    the device. *)
Theorem add_notifier_duplicate_then_reregister klass st :
  is_Some (notifiers st !! fileno klass) ->
  (fst (add_notifier klass st) = Raise AssertionError /\
   notifiers (snd (add_notifier klass st)) = notifiers st) /\
  exists st1 st2 n,
    remove_notifier (fileno klass) st = (Ret tt, st1) /\
    notifiers st1 !! fileno klass = None /\
    add_notifier klass st1 = (Ret tt, st2) /\
    notifiers st2 !! fileno klass = Some n /\
    children st2 !! n =
      Some {| socket := fileno klass; isEnabled := true; slots := [klass] |} /\
    (consistent st -> children st !! n = None).
Proof.
  intros [m Hm]. split.
  - by rewrite (add_notifier_duplicate _ _ _ Hm).
  - eexists _, _, (next_object st).
    split; [apply (remove_notifier_registered _ _ _ Hm)|].
    split; [apply lookup_delete_eq|].
    split; [apply add_notifier_fresh; apply lookup_delete_eq|]. simpl.
    split; [apply lookup_insert_eq|].
    split; [apply lookup_insert_eq|].
    intros [Hc _]. destruct (children st !! next_object st) as [q|] eqn:Hq;
      [|done].
    destruct (Hc _ _ Hq). lia.
Qed.

(** C8.  On a consistent registry, removing a registered descriptor first
    runs [enable_notifier(fd, False)], after which the entry is still
    registered but disabled, and only then pops and disconnects it; when
    [remove_notifier] has returned the descriptor is unregistered, its
    notifier is disabled with no slot connected, and no callback can fire
    for the descriptor. *)
Theorem remove_notifier_disables_then_detaches fd st n :
  consistent st ->
  notifiers st !! fd = Some n ->
  exists q st1 st2,
    children st !! n = Some q /\
    enable_notifier fd false st = (Ret tt, st1) /\
    notifiers st1 !! fd = Some n /\
    children st1 !! n =
      Some {| socket := fd; isEnabled := false; slots := slots q |} /\
    callbacks st1 fd = [] /\
    remove_notifier fd st =
      (n' <- notifiers_pop fd ;; disconnect n') st1 /\
    remove_notifier fd st = (Ret tt, st2) /\
    notifiers st2 !! fd = None /\
    children st2 !! n = Some (torn_down q) /\
    callbacks st2 fd = [].
Proof.
  intros [Hc Hn] Hfd.
  pose proof (Hn fd n Hfd) as Hq. simpl in Hq.
  destruct (children st !! n) as [q|] eqn:Hch; [|done].
  simpl in Hq. injection Hq as Hsock.
  exists q. eexists _, _. split; [done|].
  split; [apply (enable_notifier_registered _ _ _ _ Hfd)|]. simpl.
  split; [done|].
  split; [by rewrite lookup_alter_eq, Hch, <- Hsock|].
  split.
  { apply callbacks_nil. simpl. intros m q' Hm Hs He.
    apply lookup_alter_Some in Hm as [(<- & q0 & Hq0 & ->)|[Hne Hm]];
      [done|].
    destruct (slots q') eqn:Hsl; [done|].
    destruct (Hc _ _ Hm) as [_ Hreg]. rewrite Hs in Hreg.
    rewrite Hreg in Hfd; [congruence|done|by rewrite Hsl]. }
  split.
  { unfold remove_notifier at 1. unfold bind at 1.
    by rewrite (enable_notifier_registered _ _ _ _ Hfd). }
  split; [apply (remove_notifier_registered _ _ _ Hfd)|]. simpl.
  split; [apply lookup_delete_eq|].
  split; [by rewrite lookup_alter_eq, Hch|].
  apply callbacks_nil. simpl. intros m q' Hm Hs He.
  apply lookup_alter_Some in Hm as [(<- & q0 & Hq0 & ->)|[Hne Hm]];
    [done|].
  destruct (slots q') eqn:Hsl; [done|].
  destruct (Hc _ _ Hm) as [_ Hreg]. rewrite Hs in Hreg.
  rewrite Hreg in Hfd; [congruence|done|by rewrite Hsl].
Qed.

(** C6.  [Left] forwards button 1 and [Right] button 2, each with the
    event's [pressed]; [Down] forwards button 1 and then button 2 with the
    same [pressed]; a key that is none of these and not [Q] changes
    nothing and forwards nothing. *)
Theorem key_event_buttons pressed st :
  _key_event Key_Left pressed st =
    (Ret tt, forwarded st [handle_button 1 pressed]) /\
  _key_event Key_Right pressed st =
    (Ret tt, forwarded st [handle_button 2 pressed]) /\
  _key_event Key_Down pressed st =
    (Ret tt, forwarded st [handle_button 1 pressed; handle_button 2 pressed]) /\
  (forall key, key <> Key_Left -> key <> Key_Right -> key <> Key_Down ->
               key <> Key_Q ->
     _key_event key pressed st = (Ret tt, st)).
Proof.
  destruct st as [ns ch nx cl sp].
  split; [reflexivity|]. split; [reflexivity|]. split.
  - unfold _key_event, forwarded, bind, seph_do, modify. simpl.
    by rewrite <- app_assoc.
  - intros key H1 H2 H3 H4. unfold _key_event.
    destruct (decide (key = Key_Left \/ key = Key_Right)) as [[?|?]|_];
      [done..|].
    destruct (decide (key = Key_Down)) as [?|_]; [done|].
    destruct (decide (key = Key_Q /\ pressed = false)) as [[? _]|_]; done.
Qed.

(** C7.  A press of [Q] requests no close and forwards nothing; a release
    of [Q] makes exactly one [app.close()] and forwards nothing. *)
Theorem key_event_quit st :
  _key_event Key_Q true st = (Ret tt, st) /\
  _key_event Key_Q false st = (Ret tt, close_requested st) /\
  seph (close_requested st) = seph st /\
  app_close (close_requested st) = S (app_close st).
Proof. by destruct st. Qed.

End ScreenFacts.

(** ** Instances on a registry with two devices *)
Section ScreenExamples.

Import Screen.

Lemma consistent_two_devices : consistent two_devices.
Proof.
  apply consistent_add_notifier; [|reflexivity].
  apply consistent_add_notifier; [|reflexivity].
  apply consistent_initial.
Qed.

Lemma klass_can_read_outcome_witness :
  exhausted seph_link 5 two_devices = (Raise ReadError, two_devices) /\
  klass_can_read exhausted seph_link 5 two_devices =
    (Ret tt, close_requested two_devices).
Proof.
  split; [reflexivity|].
  apply (klass_can_read_outcome exhausted seph_link 5 two_devices
           (Raise ReadError) two_devices eq_refl).
  reflexivity.
Defined.

Lemma add_notifier_duplicate_then_reregister_witness :
  is_Some (notifiers two_devices !! fileno seph_link) /\
  fst (add_notifier seph_link two_devices) = Raise AssertionError.
Proof.
  assert (Hreg : is_Some (notifiers two_devices !! fileno seph_link))
    by (exists 0%nat; reflexivity).
  split; [exact Hreg|].
  apply (add_notifier_duplicate_then_reregister seph_link two_devices Hreg).
Defined.

Lemma remove_notifier_disables_then_detaches_witness :
  consistent two_devices /\
  notifiers two_devices !! 5 = Some 0%nat /\
  exists st2, remove_notifier 5 two_devices = (Ret tt, st2) /\
              callbacks st2 5 = [].
Proof.
  split; [apply consistent_two_devices|]. split; [reflexivity|].
  destruct (remove_notifier_disables_then_detaches 5 two_devices 0
              consistent_two_devices eq_refl)
    as (q & st1 & st2 & _ & _ & _ & _ & _ & _ & Hrm & _ & _ & Hcb).
  exists st2. split; [exact Hrm | exact Hcb].
Defined.

(** The specification's example: [Down] pressed then released makes four
    calls on the link. *)
Lemma key_down_press_then_release :
  seph (_key_event Key_Down false (_key_event Key_Down true initial).2).2 =
    [handle_button 1 true; handle_button 2 true;
     handle_button 1 false; handle_button 2 false].
Proof. reflexivity. Qed.

(** Why consistency is asked for: the notifier built by a registration that
    then fails its assertion stays a child of the window, enabled and
    connected, and [remove_notifier] does not reach it. *)
Remark failed_registration_leaves_notifier :
  let st := (add_notifier seph_link two_devices).2 in
  (add_notifier seph_link two_devices).1 = Raise AssertionError /\
  callbacks (remove_notifier 5 st).2 5 = [seph_link].
Proof. split; reflexivity. Qed.

End ScreenExamples.

(** ** The paint widget *)
Section PaintWidgetFacts.

Import PaintWidget.

Lemma draw_items_snoc l item qp :
  draw_items (l ++ [item]) qp =
    drawPoint item.1.1 item.1.2
      (setPen (fromRgb item.2) (draw_items l qp)).
Proof.
  unfold draw_items. rewrite foldl_app. by destruct item as [[x y] c].
Qed.

Lemma draw_items_size l qp :
  width (device (draw_items l qp)) = width (device qp) /\
  height (device (draw_items l qp)) = height (device qp).
Proof.
  induction l as [|item l IH] using rev_ind; [done|].
  by rewrite draw_items_snoc.
Qed.

Lemma draw_items_inside l qp x y :
  inside (device (draw_items l qp)) x y = inside (device qp) x y.
Proof.
  unfold inside. by destruct (draw_items_size l qp) as [-> ->].
Qed.

Lemma draw_items_points l qp :
  points (draw_items l qp) = points qp ++ (as_point <$> l).
Proof.
  induction l as [|[[x y] c] l IH] using rev_ind.
  - by rewrite app_nil_r.
  - rewrite draw_items_snoc, fmap_app. simpl. by rewrite IH, app_assoc.
Qed.

(** A pending pixel inside the device ends up with its own colour: the
    keys of the items are distinct, so no later item overwrites it. *)
Lemma draw_items_pixel l qp x y c :
  NoDup l.*1 -> (x, y, c) ∈ l -> inside (device qp) x y = true ->
  pixel (device (draw_items l qp)) x y = fromRgb c.
Proof.
  induction l as [|[[x' y'] c'] l IH] using rev_ind; intros Hnd Hin Hins.
  - by apply elem_of_nil in Hin.
  - rewrite draw_items_snoc. simpl. rewrite draw_items_inside.
    rewrite fmap_app in Hnd. apply NoDup_app in Hnd as (Hnd & Hfresh & _).
    apply elem_of_app in Hin as [Hin|Hin].
    + assert ((x, y) <> (x', y')) as Hne.
      { intros Heq. apply (Hfresh (x, y)).
        - apply (list_elem_of_fmap_2 fst l (x, y, c) Hin).
        - rewrite Heq. simpl. apply list_elem_of_here. }
      destruct (Z.eqb_spec x x') as [->|Hx], (Z.eqb_spec y y') as [->|Hy];
        rewrite ?andb_false_r; simpl; try by apply IH.
      done.
    + apply list_elem_of_singleton in Hin. injection Hin as -> -> ->.
      rewrite Hins, !Z.eqb_refl. done.
Qed.

(** A coordinate with no pending item keeps what the painter started
    from. *)
Lemma draw_items_other l qp x y :
  (x, y) ∉ l.*1 ->
  pixel (device (draw_items l qp)) x y = pixel (device qp) x y.
Proof.
  induction l as [|[[x' y'] c'] l IH] using rev_ind; intros Hnot; [done|].
  rewrite draw_items_snoc. simpl. rewrite fmap_app in Hnot.
  apply not_elem_of_app in Hnot as [Hl Hlast].
  simpl in Hlast. apply not_elem_of_cons in Hlast as [Hne _].
  destruct (Z.eqb_spec x x') as [->|Hx], (Z.eqb_spec y y') as [->|Hy];
    rewrite ?andb_false_r; simpl; try by apply IH.
  done.
Qed.

Lemma flush_unfold st :
  flush st =
    commit
      (draw_items (map_to_list (dirty st))
         (drawPixmap (mPixmap st)
            (begin (filled (qRound_div (size st).1 (pixel_size st))
                           (qRound_div (size st).2 (pixel_size st)) white))))
      (screenshot_update_pixels
         (match vnc st with Some _ => vnc_redraw st | None => st end)).
Proof. reflexivity. Qed.

Lemma paintEvent_pending st :
  dirty st <> ∅ -> paintEvent st = blit (flush st).
Proof. intros Hd. unfold paintEvent. by rewrite bool_decide_eq_false_2. Qed.

(** The pixmap committed by a flush has the widget's size divided by the
    scale. *)
Lemma flush_pixmap_size st :
  (width (mPixmap (flush st)), height (mPixmap (flush st))) =
    QSize_div (size st) (pixel_size st).
Proof.
  rewrite flush_unfold. simpl.
  by destruct (draw_items_size (map_to_list (dirty st))
    (drawPixmap (mPixmap st)
       (begin (filled (qRound_div (size st).1 (pixel_size st))
                      (qRound_div (size st).2 (pixel_size st)) white))))
    as [-> ->].
Qed.

(** [App.__init__] resizes the widget to the screen size times the scale;
    dividing by the scale gives the screen size back. *)
Lemma QSize_div_resize w h ps :
  ps <> 0 -> QSize_div (w * ps, h * ps) ps = (w, h).
Proof.
  intros Hps. unfold QSize_div, qRound_div. simpl.
  assert (forall n, (2 * (n * ps) + ps) / (2 * ps) = n) as Hn.
  { intros n. replace (2 * (n * ps) + ps) with (n * (2 * ps) + ps) by lia.
    rewrite Z.div_add_l by lia.
    assert (ps / (2 * ps) = 0) as -> by (apply Z.div_small_iff; lia).
    lia. }
  by rewrite !Hn.
Qed.

Lemma flush_pixel st x y c :
  dirty st !! (x, y) = Some c ->
  inside (mPixmap (flush st)) x y = true ->
  pixel (mPixmap (flush st)) x y = fromRgb c.
Proof.
  rewrite flush_unfold. simpl. intros Hc Hin.
  rewrite draw_items_inside in Hin.
  apply draw_items_pixel; [apply NoDup_fst_map_to_list| |done].
  by apply elem_of_map_to_list.
Qed.

(** A pixel with nothing pending keeps what the previous pixmap had there,
    and is white where the previous pixmap does not reach. *)
Lemma flush_other_pixel st x y :
  dirty st !! (x, y) = None ->
  pixel (mPixmap (flush st)) x y =
    if inside (mPixmap st) x y then pixel (mPixmap st) x y else white.
Proof.
  rewrite flush_unfold. simpl. intros Hnone.
  rewrite draw_items_other; [done|].
  intros Hin. apply list_elem_of_fmap in Hin as ([[x' y'] c] & Heq & Hin).
  apply elem_of_map_to_list in Hin. simpl in Heq. congruence.
Qed.

(** On a widget sized by [App.__init__] for a [w] x [h] screen, every
    pending pixel on the screen is on the committed pixmap. *)
Lemma flush_on_screen st w h x y c :
  pixel_size st <> 0 ->
  size st = (w * pixel_size st, h * pixel_size st) ->
  dirty st !! (x, y) = Some c ->
  0 <= x < w -> 0 <= y < h ->
  pixelAt (mPixmap (flush st)) x y = Some (fromRgb c).
Proof.
  intros Hps Hsize Hc Hx Hy.
  pose proof (flush_pixmap_size st) as Hsz.
  rewrite Hsize, (QSize_div_resize _ _ _ Hps) in Hsz.
  assert (width (mPixmap (flush st)) = w) as Hw by exact (f_equal fst Hsz).
  assert (height (mPixmap (flush st)) = h) as Hh by exact (f_equal snd Hsz).
  assert (inside (mPixmap (flush st)) x y = true) as Hin.
  { unfold inside. rewrite Hw, Hh.
    repeat (apply andb_true_intro; split); lia. }
  unfold pixelAt. rewrite Hin. f_equal. by apply flush_pixel.
Qed.

(** C1.  A paint event on a widget with pending pixels.  Committed image:
    the new [mPixmap] has the widget's size over the scale; every pending
    [(x, y, color)] that lies on it is its pixel there; every other pixel
    is what the previous [mPixmap] had there, white where that one does not
    reach.  On-screen target: the painter was asked to draw each pending
    triple exactly once, and the widget is then drawn with the new
    [mPixmap], scaled by [pixel_size] unless that is 1.  Working snapshot:
    every pending pixel is in it, the others are as before.  Mirror sink:
    when there is one it got exactly one [redraw], with the frame buffer's
    dictionary, which still holds the whole diff afterwards.  The frame
    buffer's dictionary is empty at the end. *)
Theorem paintEvent_flush st :
  dirty st <> ∅ ->
  (fb_pixels st < next_ref st)%nat ->
  let d := dirty st in
  let st' := paintEvent st in
  (width (mPixmap st'), height (mPixmap st')) =
    QSize_div (size st) (pixel_size st) /\
  (forall x y c, d !! (x, y) = Some c ->
     inside (mPixmap st') x y = true ->
     pixelAt (mPixmap st') x y = Some (fromRgb c)) /\
  (forall x y, d !! (x, y) = None ->
     pixel (mPixmap st') x y =
       if inside (mPixmap st) x y then pixel (mPixmap st) x y else white) /\
  painted st' =
    painted st ++
      [if bool_decide (pixel_size st = 1) then mPixmap st'
       else scaled (width (mPixmap st') * pixel_size st)
                   (height (mPixmap st') * pixel_size st) (mPixmap st')] /\
  (exists pts, drawn st' = drawn st ++ pts /\ NoDup pts /\
     forall x y c, (x, y, fromRgb c) ∈ pts <-> d !! (x, y) = Some c) /\
  (forall k c, d !! k = Some c -> fb_workingSnapshot st' !! k = Some c) /\
  (forall k, d !! k = None ->
     fb_workingSnapshot st' !! k = fb_workingSnapshot st !! k) /\
  vnc st' = (fun calls => calls ++ [fb_pixels st]) <$> vnc st /\
  deref st' (fb_pixels st) = d /\
  dirty st' = ∅.
Proof.
  intros Hdirty Hfresh d st'. subst st'.
  rewrite (paintEvent_pending _ Hdirty).
  split; [apply (flush_pixmap_size st)|].
  split.
  { intros x y c Hc Hin. unfold pixelAt. rewrite Hin. f_equal.
    by apply (flush_pixel st). }
  split.
  { intros x y Hnone. by apply (flush_other_pixel st). }
  split.
  { assert (pixel_size (flush st) = pixel_size st /\
            painted (flush st) = painted st) as [Hps Hpt].
    { rewrite flush_unfold. by destruct (vnc st). }
    unfold blit. cbn [painted mPixmap]. rewrite Hps, Hpt.
    by case_bool_decide. }
  rewrite flush_unfold.
  set (qp0 := drawPixmap _ _).
  assert (dirty (match vnc st with Some _ => vnc_redraw st | None => st end)
          = d) as Hd1 by (by destruct (vnc st)).
  assert (fb_workingSnapshot
            (match vnc st with Some _ => vnc_redraw st | None => st end)
          = fb_workingSnapshot st) as Hs1 by (by destruct (vnc st)).
  repeat split.
  - exists (as_point <$> map_to_list d). simpl.
    split; [by destruct (vnc st); simpl; rewrite draw_items_points|].
    split.
    + apply NoDup_fmap_2; [|apply NoDup_map_to_list].
      intros [[x y] c] [[x' y'] c'] Heq. by injection Heq as -> -> ->.
    + intros x y c. rewrite list_elem_of_fmap. split.
      * intros ([[x' y'] c'] & Heq & Hin). injection Heq as -> -> ->.
        by apply elem_of_map_to_list in Hin.
      * intros Hc. exists (x, y, c). split; [done|].
        by apply elem_of_map_to_list.
  - intros k c Hc. simpl. rewrite Hd1.
    by apply lookup_union_Some_l.
  - intros k Hk. simpl. rewrite Hd1, Hs1.
    by apply lookup_union_r.
  - simpl. destruct (vnc st) eqn:Hvnc; simpl; by rewrite Hvnc.
  - unfold deref. simpl. rewrite lookup_insert_ne.
    + by destruct (vnc st).
    + destruct (vnc st); simpl; lia.
  - unfold dirty, deref. simpl. by rewrite lookup_insert_eq.
Qed.

(** C9.  A paint event calls [scaled] once when [pixel_size] is not 1, with
    the pixmap's sides times [pixel_size], and draws the scaled copy; when
    [pixel_size] is 1 it does not call [scaled] and draws [mPixmap]
    itself. *)
Theorem paintEvent_scaled_iff st :
  let st' := paintEvent st in
  let w := width (mPixmap st') * pixel_size st in
  let h := height (mPixmap st') * pixel_size st in
  if decide (pixel_size st = 1)
  then scaled_calls st' = scaled_calls st /\
       painted st' = painted st ++ [mPixmap st']
  else scaled_calls st' = scaled_calls st ++ [(w, h)] /\
       painted st' = painted st ++ [scaled w h (mPixmap st')].
Proof.
  intros st' w h. subst st' w h. unfold paintEvent.
  set (s0 := if bool_decide (dirty st = ∅) then st else flush st).
  assert (pixel_size s0 = pixel_size st /\
          scaled_calls s0 = scaled_calls st /\
          painted s0 = painted st) as (Hps & Hsc & Hpt).
  { subst s0. case_bool_decide; [done|].
    rewrite flush_unfold. by destruct (vnc st). }
  rewrite <- Hps, <- Hsc, <- Hpt. clearbody s0. unfold blit. simpl.
  case_decide as Hone.
  - by rewrite bool_decide_eq_true_2, app_nil_r.
  - by rewrite bool_decide_eq_false_2.
Qed.

(** C10.  [update] asks for the rectangle [(x, y, w, h)] when all four
    arguments are given and non-zero, and for the whole widget when any of
    them is omitted or 0; either way it returns [True] exactly when the
    frame buffer's dictionary is not empty. *)
Theorem update_request x y w h st :
  update_calls (update x y w h st).2 =
    update_calls st ++
      [match x, y, w, h with
       | Some x', Some y', Some w', Some h' =>
           if decide (x' <> 0 /\ y' <> 0 /\ w' <> 0 /\ h' <> 0)
           then Some {| rx := x'; ry := y'; rw := w'; rh := h' |}
           else None
       | _, _, _, _ => None
       end] /\
  ((update x y w h st).1 = true <-> dirty st <> ∅).
Proof.
  split.
  - unfold update. simpl. f_equal. f_equal.
    destruct x as [x'|], y as [y'|], w as [w'|], h as [h'|]; simpl;
      rewrite ?andb_false_r; try done.
    case_decide as Hd.
    + destruct Hd as (? & ? & ? & ?).
      by repeat (rewrite (proj2 (Z.eqb_neq _ 0)); [|done]).
    + destruct (Z.eqb_spec x' 0), (Z.eqb_spec y' 0), (Z.eqb_spec w' 0),
        (Z.eqb_spec h' 0); simpl; try done.
      exfalso. by apply Hd.
  - unfold update. simpl. rewrite negb_true_iff, bool_decide_eq_false. done.
Qed.

End PaintWidgetFacts.

(** ** Pointer events *)
Section AppFacts.

Import App.

Lemma _get_x_y_stored st stored :
  mouse_offset st = Some stored -> pixel_size st <> 0 ->
  _get_x_y st = (Ret (spec_translate st stored), st).
Proof.
  intros Hoff Hps. unfold _get_x_y, bind, get, get_mouse_offset, floordiv.
  rewrite Hoff. destruct (decide (pixel_size st = 0)) as [?|_]; [done|].
  unfold ret. simpl. by rewrite Hoff.
Qed.

Lemma on_screen_spec st x y :
  on_screen st x y =
    (0 <=? x) && (x <? _width st) && (0 <=? y) && (y <? _height st).
Proof. unfold on_screen. by rewrite !Z.geb_leb. Qed.

(** What both handlers do once the position is stored: translate it,
    send the touch command if it is on the screen, change the cursor. *)
Lemma touch_stored st stored pressed f :
  mouse_offset st = Some stored -> pixel_size st <> 0 ->
  (xy <- _get_x_y ;;
   st' <- get ;;
   (if on_screen st' xy.1 xy.2
    then seph_do (handle_finger xy.1 xy.2 pressed) else ret tt) ;;;
   set_override_cursor f) st =
  (Ret tt,
   {| seph := seph st ++ spec_touch st stored pressed;
      _width := _width st; _height := _height st;
      pixel_size := pixel_size st; box_position_x := box_position_x st;
      box_position_y := box_position_y st; mouse_offset := mouse_offset st;
      override_cursor := f (override_cursor st);
      window_pos := window_pos st |}).
Proof.
  intros Hoff Hps. unfold bind at 1.
  rewrite (_get_x_y_stored _ stored Hoff Hps).
  unfold bind, get, spec_touch. rewrite on_screen_spec.
  destruct (spec_translate st stored) as [tx ty]. simpl.
  destruct (_ && _); simpl; by rewrite ?app_nil_r.
Qed.

Lemma mousePressEvent_run st raw :
  pixel_size st <> 0 ->
  mousePressEvent raw st =
    (Ret tt,
     {| seph := seph st ++ spec_touch st raw true;
        _width := _width st; _height := _height st;
        pixel_size := pixel_size st; box_position_x := box_position_x st;
        box_position_y := box_position_y st; mouse_offset := Some raw;
        override_cursor := DragMoveCursor :: override_cursor st;
        window_pos := window_pos st |}).
Proof.
  intros Hps. unfold mousePressEvent. unfold bind at 1.
  unfold set_mouse_offset, modify.
  by rewrite (touch_stored _ raw).
Qed.

Lemma mouseReleaseEvent_seph st stored r :
  pixel_size st <> 0 -> mouse_offset st = Some stored ->
  (mouseReleaseEvent r st).1 = Ret tt /\
  seph (mouseReleaseEvent r st).2 = seph st ++ spec_touch st stored false.
Proof.
  intros Hps Hoff. unfold mouseReleaseEvent.
  by rewrite (touch_stored _ stored).
Qed.

(** Dragging: after a move event the pointer is still at [mouse_offset]
    relative to the window, which is why a release reads the stored
    position. *)
Lemma mouseMoveEvent_keeps_offset st stored gpos :
  mouse_offset st = Some stored ->
  let st' := (mouseMoveEvent gpos st).2 in
  (gpos.1 - (window_pos st').1, gpos.2 - (window_pos st').2) = stored.
Proof.
  intros Hoff. unfold mouseMoveEvent, bind, get_mouse_offset.
  rewrite Hoff. simpl. rewrite Hoff. simpl.
  destruct stored as [ox oy]. simpl. f_equal; lia.
Qed.

(** C2, as the code has it.  With a non-zero [pixel_size], a press at
    [raw] returns normally and forwards [(tx, ty, True)] for
    [tx = raw.x // pixel_size - (box_position_x + 1)] and
    [ty = raw.y // pixel_size - (box_position_y + 1)] exactly when
    [0 <= tx < _width] and [0 <= ty < _height], and nothing otherwise; a
    release returns normally and does the same with [False], but for the
    position stored by the last press, wherever the release happens. *)
Theorem pointer_events_forward :
  follows_event_position mousePressEvent true /\
  (forall st stored r,
     pixel_size st <> 0 -> mouse_offset st = Some stored ->
     (mouseReleaseEvent r st).1 = Ret tt /\
     seph (mouseReleaseEvent r st).2 =
       seph st ++ spec_touch st stored false).
Proof.
  split.
  - intros st raw Hps. by rewrite (mousePressEvent_run _ _ Hps).
  - intros st stored r Hps Hoff. by apply mouseReleaseEvent_seph.
Qed.

(** C3, as the code has it.  With a non-zero [pixel_size], the release
    that follows a press at [p] is translated from [p], the position the
    press stored, and goes through the same bounds check: it is forwarded
    exactly when the press was, with the same coordinates, wherever the
    release itself happens. *)
Theorem release_reads_press_position st p r :
  pixel_size st <> 0 ->
  let st1 := (mousePressEvent p st).2 in
  (mouseReleaseEvent r st1).1 = Ret tt /\
  seph st1 = seph st ++ spec_touch st p true /\
  seph (mouseReleaseEvent r st1).2 = seph st1 ++ spec_touch st p false.
Proof.
  intros Hps st1. subst st1. rewrite (mousePressEvent_run _ _ Hps). simpl.
  set (st1 := {| seph := seph st ++ spec_touch st p true;
                 mouse_offset := Some p |}).
  destruct (mouseReleaseEvent_seph st1 p r Hps eq_refl) as [Hret Hseph].
  split; [exact Hret|]. split; [reflexivity|exact Hseph].
Qed.

(** C2 fails for a release: after a press at (8, 8), a release at (0, 0),
    which translates to (-4, -4), still forwards [(0, 0, False)]. *)
Lemma release_off_screen_counterexample :
  ~ follows_event_position mouseReleaseEvent false.
Proof.
  intros Hclaim.
  destruct (Hclaim (mousePressEvent (8, 8) example_app).2 (0, 0))
    as [_ Hseph]; [done|].
  vm_compute in Hseph. discriminate Hseph.
Qed.

(** C3 fails: after a press at (0, 0), which is dropped, a release at
    (8, 8), which translates to (0, 0), forwards nothing. *)
Lemma release_after_dropped_press_counterexample :
  ~ release_independent_of_press.
Proof.
  intros Hclaim.
  pose proof (Hclaim example_app (0, 0) (8, 8)) as Hseph.
  vm_compute in Hseph. by discriminate Hseph.
Qed.

Lemma pointer_events_forward_witness :
  pixel_size example_app <> 0 /\
  seph (mousePressEvent (8, 8) example_app).2 = [handle_finger 0 0 true] /\
  seph (mousePressEvent (0, 0) example_app).2 = [].
Proof.
  assert (Hps : pixel_size example_app <> 0) by (simpl; lia).
  split; [exact Hps|]. split.
  - exact (proj2 (proj1 pointer_events_forward example_app (8, 8) Hps)).
  - exact (proj2 (proj1 pointer_events_forward example_app (0, 0) Hps)).
Defined.

Lemma release_reads_press_position_witness :
  pixel_size example_app <> 0 /\
  seph (mouseReleaseEvent (0, 0)
          (mousePressEvent (8, 8) example_app).2).2 =
    [handle_finger 0 0 true; handle_finger 0 0 false].
Proof.
  assert (Hps : pixel_size example_app <> 0) by (simpl; lia).
  split; [exact Hps|].
  destruct (release_reads_press_position example_app (8, 8) (0, 0) Hps)
    as (_ & Hpress & Hrelease).
  rewrite Hrelease, Hpress. reflexivity.
Defined.

End AppFacts.

(** ** A paint event on a small widget *)
Section PaintWidgetExamples.

Import PaintWidget.

Lemma paintEvent_flush_witness :
  dirty Scene.example_widget_later <> ∅ /\
  (fb_pixels Scene.example_widget_later
   < next_ref Scene.example_widget_later)%nat /\
  pixelAt (mPixmap (paintEvent Scene.example_widget_later)) 0 0 =
    Some (fromRgb 7) /\
  pixel (mPixmap (paintEvent Scene.example_widget_later)) 1 1 = fromRgb 0 /\
  length (painted (paintEvent Scene.example_widget_later)) = 2%nat /\
  vnc (paintEvent Scene.example_widget_later) = Some [0%nat; 1%nat] /\
  dirty (paintEvent Scene.example_widget_later) = ∅.
Proof.
  assert (Hdirty : dirty Scene.example_widget_later <> ∅).
  { intros Heq. apply (f_equal (fun m => m !! (0, 0))) in Heq.
    vm_compute in Heq. discriminate Heq. }
  assert (Hfresh : (fb_pixels Scene.example_widget_later
                    < next_ref Scene.example_widget_later)%nat)
    by (vm_compute; lia).
  split; [exact Hdirty|]. split; [exact Hfresh|].
  destruct (paintEvent_flush Scene.example_widget_later Hdirty Hfresh)
    as (_ & Hpix & Hframe & Hpainted & _ & _ & _ & Hvnc & _ & Hempty).
  split; [apply Hpix; reflexivity|].
  split; [rewrite (Hframe 1 1 eq_refl); reflexivity|].
  split; [rewrite Hpainted; reflexivity|].
  split; [exact Hvnc | exact Hempty].
Defined.

(** The same by evaluation: after the second paint event the pixel written
    before the first is still black, the new one has its colour, and the
    widget was drawn twice, each time 8 pixels wide. *)
Example paintEvent_twice_evaluated :
  pixelAt (mPixmap (paintEvent Scene.example_widget_later)) 1 1 =
    Some (fromRgb 0) /\
  pixelAt (mPixmap (paintEvent Scene.example_widget_later)) 0 0 =
    Some (fromRgb 7) /\
  width <$> painted (paintEvent Scene.example_widget_later) = [8; 8].
Proof. repeat split. Qed.

End PaintWidgetExamples.

(** ** More on the notifiers *)
Section RegistryFacts.

Import Screen Calls.

Lemma elem_of_callbacks st fd k :
  k ∈ callbacks st fd <->
  exists n q, children st !! n = Some q /\ socket q = fd /\
              isEnabled q = true /\ k ∈ slots q.
Proof.
  unfold callbacks. rewrite list_elem_of_In, in_flat_map. split.
  - intros ([n q] & Hin & Hk). exists n, q.
    apply list_elem_of_In, elem_of_map_to_list in Hin.
    case_decide as Hd; [|by apply list_elem_of_In, elem_of_nil in Hk].
    destruct Hd. by rewrite list_elem_of_In.
  - intros (n & q & Hq & Hs & He & Hk). exists (n, q). split.
    + by apply list_elem_of_In, elem_of_map_to_list.
    + rewrite decide_True by done. by apply list_elem_of_In.
Qed.

(** Two screens whose enabled notifiers on [fd] are the same have the same
    callbacks for [fd]. *)
Lemma callbacks_agree st st' fd :
  (forall n q, socket q = fd -> isEnabled q = true ->
     children st' !! n = Some q <-> children st !! n = Some q) ->
  forall k, k ∈ callbacks st' fd <-> k ∈ callbacks st fd.
Proof.
  intros Hsame k. rewrite !elem_of_callbacks.
  split; intros (n & q & Hq & Hs & He & Hk); exists n, q;
    (split; [by apply (Hsame n q Hs He)|done]).
Qed.

Lemma flat_map_nil {A B} (f : A -> list B) (l : list A) :
  (forall y, y ∈ l -> f y = []) -> flat_map f l = [].
Proof.
  induction l as [|a l IH]; intros Hnil; [done|]. simpl.
  rewrite (Hnil a) by apply list_elem_of_here. simpl.
  apply IH. intros y Hy. apply Hnil. by apply list_elem_of_further.
Qed.

Lemma flat_map_single {A B} (f : A -> list B) (l : list A) x :
  NoDup l -> x ∈ l -> (forall y, y ∈ l -> y <> x -> f y = []) ->
  flat_map f l = f x.
Proof.
  induction l as [|a l IH]; intros Hnd Hx Hnil.
  - by apply elem_of_nil in Hx.
  - apply NoDup_cons in Hnd as [Ha Hnd]. simpl.
    apply elem_of_cons in Hx as [->|Hx].
    + rewrite flat_map_nil; [by rewrite app_nil_r|].
      intros y Hy. apply Hnil; [by apply list_elem_of_further|].
      intros ->. done.
    + rewrite (Hnil a); [|apply list_elem_of_here|by intros ->]. simpl.
      apply IH; [done..|]. intros y Hy. apply Hnil.
      by apply list_elem_of_further.
Qed.

(** On a consistent registry the callbacks for a descriptor are those of
    the notifier registered for it, when that one is enabled. *)
Lemma callbacks_registered st fd :
  consistent st ->
  callbacks st fd =
    match notifiers st !! fd with
    | Some n =>
        match children st !! n with
        | Some q => if isEnabled q then slots q else []
        | None => []
        end
    | None => []
    end.
Proof.
  intros [Hc Hn]. destruct (notifiers st !! fd) as [n|] eqn:Hfd.
  - pose proof (Hn fd n Hfd) as Hq. simpl in Hq.
    destruct (children st !! n) as [q|] eqn:Hch; [|done].
    simpl in Hq. injection Hq as Hsock.
    unfold callbacks.
    rewrite (flat_map_single _ _ (n, q)).
    + destruct (isEnabled q) eqn:He.
      * by rewrite decide_True.
      * rewrite decide_False; [done|]. intros [_ ?]. congruence.
    + apply NoDup_map_to_list.
    + by apply elem_of_map_to_list.
    + intros [m q'] Hin Hne. apply elem_of_map_to_list in Hin.
      case_decide as Hd; [|done]. destruct Hd as [Hs He].
      destruct (slots q') eqn:Hsl; [done|].
      destruct (Hc m q' Hin) as [_ Hreg].
      rewrite Hs, Hfd in Hreg.
      assert (Some n = Some m) as Hnm by (apply Hreg; [done|by rewrite Hsl]).
      injection Hnm as <-. exfalso. apply Hne. congruence.
  - apply callbacks_nil. intros m q' Hm Hs He.
    destruct (slots q') eqn:Hsl; [done|].
    destruct (Hc m q' Hm) as [_ Hreg]. rewrite Hs, Hfd in Hreg.
    exfalso. assert (None = Some m) by (apply Hreg; [done|by rewrite Hsl]).
    done.
Qed.

(** Key events leave the registry alone. *)
Lemma key_event_registry key pressed st :
  exists calls closes,
    _key_event key pressed st =
      (Ret tt,
       {| notifiers := notifiers st; children := children st;
          next_object := next_object st;
          app_close := (closes + app_close st)%nat;
          seph := seph st ++ calls |}) /\
    (closes = if decide (key = Key_Q /\ pressed = false) then 1 else 0)%nat /\
    Forall (fun c => c = handle_button 1 pressed \/
                     c = handle_button 2 pressed) calls.
Proof.
  destruct st as [ns ch nx cl sp]. unfold _key_event.
  destruct (decide (key = Key_Left \/ key = Key_Right)) as [[-> | ->] | Hlr].
  - exists [handle_button 1 pressed], 0%nat. repeat split.
    constructor; [by left|constructor].
  - exists [handle_button 2 pressed], 0%nat. repeat split.
    constructor; [by right|constructor].
  - destruct (decide (key = Key_Down)) as [-> | Hd].
    + exists [handle_button 1 pressed; handle_button 2 pressed], 0%nat.
      split; [|split; [done|]].
      * unfold bind, seph_do, modify. simpl. by rewrite <- app_assoc.
      * constructor; [by left|]. constructor; [by right|constructor].
    + destruct (decide (key = Key_Q /\ pressed = false)) as [Hq|Hq].
      * exists [], 1%nat. split; [|split; [done|constructor]].
        unfold app_close_call, modify. simpl. by rewrite app_nil_r.
      * exists [], 0%nat. split; [|split; [done|constructor]].
        unfold ret. simpl. by rewrite app_nil_r.
Qed.

Lemma consistent_same_registry st st' :
  notifiers st' = notifiers st -> children st' = children st ->
  next_object st' = next_object st ->
  consistent st -> consistent st'.
Proof. unfold consistent. by intros -> -> ->. Qed.

Lemma one_slot_each_initial : one_slot_each initial.
Proof. apply map_Forall_empty. Qed.

(** A successful call keeps both invariants. *)
Lemma run_call_invariant c st st' :
  run_call c st = (Ret tt, st') ->
  consistent st -> one_slot_each st ->
  consistent st' /\ one_slot_each st'.
Proof.
  intros Hrun Hc Hone.
  destruct c as [klass|fd enabled|fd|key pressed]; simpl in Hrun.
  - destruct (notifiers st !! fileno klass) as [n|] eqn:Hfd.
    { by rewrite (add_notifier_duplicate _ _ _ Hfd) in Hrun. }
    pose proof (consistent_add_notifier klass st Hc Hfd) as Hc'.
    rewrite Hrun in Hc'. simpl in Hc'. split; [done|].
    rewrite (add_notifier_fresh _ _ Hfd) in Hrun. injection Hrun as <-.
    intros fd n Hn. simpl in *.
    apply lookup_insert_Some in Hn as [[<- <-]|[Hne Hn]].
    + exists klass. by rewrite lookup_insert_eq.
    + destruct (Hone fd n Hn) as (k & Hk & Hfk). exists k. split; [|done].
      rewrite lookup_insert_ne; [done|]. intros <-.
      destruct Hc as [Hch _].
      destruct (children st !! next_object st) as [q|] eqn:Hq; [|done].
      destruct (Hch _ _ Hq). lia.
  - pose proof (consistent_enable_notifier fd enabled st Hc) as Hc'.
    rewrite Hrun in Hc'. simpl in Hc'. split; [done|].
    destruct (notifiers st !! fd) as [n|] eqn:Hfd.
    2: { by rewrite (enable_notifier_unregistered _ _ _ Hfd) in Hrun. }
    rewrite (enable_notifier_registered _ _ _ _ Hfd) in Hrun.
    injection Hrun as <-. intros fd' n' Hn'. simpl in *.
    destruct (Hone fd' n' Hn') as (k & Hk & Hfk). exists k. split; [|done].
    rewrite lookup_alter. case_decide; [subst|done].
    by destruct (children st !! n').
  - pose proof (consistent_remove_notifier fd st Hc) as Hc'.
    rewrite Hrun in Hc'. simpl in Hc'. split; [done|].
    destruct (notifiers st !! fd) as [n|] eqn:Hfd.
    2: { unfold remove_notifier, bind in Hrun.
         by rewrite (enable_notifier_unregistered _ _ _ Hfd) in Hrun. }
    rewrite (remove_notifier_registered _ _ _ Hfd) in Hrun.
    injection Hrun as <-. intros fd' n' Hn'. simpl in *.
    apply lookup_delete_Some in Hn' as [Hne Hn'].
    destruct (Hone fd' n' Hn') as (k & Hk & Hfk). exists k. split; [|done].
    rewrite lookup_alter_ne; [done|]. intros <-.
    destruct Hc as [_ Hreg].
    pose proof (Hreg fd n Hfd) as H1. pose proof (Hreg fd' n Hn') as H2.
    simpl in *. congruence.
  - destruct (key_event_registry key pressed st) as (calls & closes & Heq & _).
    rewrite Heq in Hrun. injection Hrun as <-. split.
    + by apply (consistent_same_registry st).
    + done.
Qed.

Lemma run_invariant cs st st' :
  run cs st = (Ret tt, st') ->
  consistent st -> one_slot_each st ->
  consistent st' /\ one_slot_each st'.
Proof.
  revert st. induction cs as [|c cs IH]; intros st Hrun Hc Hone.
  - injection Hrun as <-. done.
  - simpl in Hrun. unfold bind in Hrun.
    destruct (run_call c st) as [[[]|e] st1] eqn:Hcall; [|done].
    destruct (run_call_invariant _ _ _ Hcall Hc Hone) as [Hc1 Hone1].
    by apply (IH st1).
Qed.

(** X1.  Removing is not idempotent: when a registered descriptor has been
    removed, removing it again, or enabling or disabling it, raises
    [KeyError] and changes nothing. *)
Theorem remove_notifier_then_KeyError fd st :
  is_Some (notifiers st !! fd) ->
  exists st1,
    remove_notifier fd st = (Ret tt, st1) /\
    remove_notifier fd st1 = (Raise (KeyError fd), st1) /\
    forall enabled,
      enable_notifier fd enabled st1 = (Raise (KeyError fd), st1).
Proof.
  intros [n Hfd]. eexists. split; [by apply remove_notifier_registered|].
  set (st1 := {| notifiers := delete fd (notifiers st) |}).
  assert (notifiers st1 !! fd = None) as Hgone by apply lookup_delete_eq.
  split.
  - unfold remove_notifier, bind.
    by rewrite (enable_notifier_unregistered _ _ _ Hgone).
  - intros enabled. by apply enable_notifier_unregistered.
Qed.

(** X2.  On a consistent registry, registering a device on a free descriptor
    and removing it again succeeds and leaves [notifiers] as it was, the
    registry consistent, and the callbacks of every descriptor the same. *)
Theorem add_then_remove_notifier klass st :
  consistent st ->
  notifiers st !! fileno klass = None ->
  exists st2,
    (add_notifier klass ;;; remove_notifier (fileno klass)) st =
      (Ret tt, st2) /\
    notifiers st2 = notifiers st /\
    consistent st2 /\
    forall fd k, k ∈ callbacks st2 fd <-> k ∈ callbacks st fd.
Proof.
  intros Hc Hfree. unfold bind at 1.
  rewrite (add_notifier_fresh _ _ Hfree).
  set (st1 := {| notifiers :=
                   <[fileno klass := next_object st]> (notifiers st) |}).
  assert (notifiers st1 !! fileno klass = Some (next_object st)) as Hreg
    by apply lookup_insert_eq.
  assert (consistent st1) as Hc1.
  { pose proof (consistent_add_notifier klass st Hc Hfree) as H.
    by rewrite (add_notifier_fresh _ _ Hfree) in H. }
  assert (children st !! next_object st = None) as Hnew.
  { destruct Hc as [Hch _].
    destruct (children st !! next_object st) as [q|] eqn:Hq; [|done].
    destruct (Hch _ _ Hq). lia. }
  eexists. split; [by apply remove_notifier_registered|].
  split; [|split].
  - simpl. by rewrite delete_insert_eq, delete_id.
  - pose proof (consistent_remove_notifier (fileno klass) st1 Hc1) as H.
    by rewrite (remove_notifier_registered _ _ _ Hreg) in H.
  - intros fd. apply callbacks_agree. simpl. intros n q Hs He.
    rewrite alter_insert_eq. simpl.
    rewrite lookup_insert_Some. split.
    + intros [[<- <-]|[_ Hq]]; [|done]. done.
    + intros Hq. right. split; [|done]. intros <-. congruence.
Qed.

(** Changing one notifier, whose socket is not [fd'] and stays what it
    was, changes no callback for [fd']. *)
Lemma callbacks_alter_other st st' f n fd fd' :
  children st' = alter f n (children st) ->
  socket <$> children st !! n = Some fd ->
  (forall q, socket (f q) = socket q) ->
  fd <> fd' ->
  forall k, k ∈ callbacks st' fd' <-> k ∈ callbacks st fd'.
Proof.
  intros Hch Hn Hf Hne. apply callbacks_agree. intros m q Hs He.
  rewrite Hch. rewrite lookup_alter_Some. split.
  - intros [(<- & q0 & Hq0 & ->)|[_ Hq]]; [|done].
    rewrite Hq0 in Hn. simpl in Hn. rewrite Hf in Hs. congruence.
  - intros Hq. right. split; [|done]. intros <-.
    rewrite Hq in Hn. simpl in Hn. congruence.
Qed.

Lemma callbacks_insert_other st st' n q0 fd' :
  children st' = <[n := q0]> (children st) ->
  children st !! n = None ->
  socket q0 <> fd' ->
  forall k, k ∈ callbacks st' fd' <-> k ∈ callbacks st fd'.
Proof.
  intros Hch Hn Hne. apply callbacks_agree. intros m q Hs He.
  rewrite Hch. rewrite lookup_insert_Some. split.
  - intros [[<- <-]|[_ Hq]]; done.
  - intros Hq. right. split; [|done]. intros <-. congruence.
Qed.

(** X3.  On a consistent registry a call on one descriptor, whether it
    succeeds or raises, leaves every other descriptor as it was: the same
    entry in [notifiers] and the same callbacks.  Key events leave all
    descriptors so. *)
Theorem call_leaves_other_descriptors c st fd' :
  consistent st ->
  call_fd c <> Some fd' ->
  notifiers (run_call c st).2 !! fd' = notifiers st !! fd' /\
  forall k, k ∈ callbacks (run_call c st).2 fd' <-> k ∈ callbacks st fd'.
Proof.
  intros Hc Hother.
  assert (children st !! next_object st = None) as Hnew.
  { destruct Hc as [Hch _].
    destruct (children st !! next_object st) as [q|] eqn:Hq; [|done].
    destruct (Hch _ _ Hq). lia. }
  destruct c as [klass|fd enabled|fd|key pressed]; simpl in *.
  - assert (fileno klass <> fd') as Hne by congruence.
    destruct (notifiers st !! fileno klass) as [n|] eqn:Hfd.
    + rewrite (add_notifier_duplicate _ _ _ Hfd). simpl. split; [done|].
      by eapply callbacks_insert_other.
    + rewrite (add_notifier_fresh _ _ Hfd). simpl.
      split; [by rewrite lookup_insert_ne|].
      by eapply callbacks_insert_other.
  - assert (fd <> fd') as Hne by congruence.
    destruct (notifiers st !! fd) as [n|] eqn:Hfd.
    + rewrite (enable_notifier_registered _ _ _ _ Hfd). simpl.
      split; [done|].
      eapply callbacks_alter_other; [done| |done|done].
      destruct Hc as [_ Hreg]. apply (Hreg fd n Hfd).
    + by rewrite (enable_notifier_unregistered _ _ _ Hfd).
  - assert (fd <> fd') as Hne by congruence.
    destruct (notifiers st !! fd) as [n|] eqn:Hfd.
    + rewrite (remove_notifier_registered _ _ _ Hfd). simpl.
      split; [by rewrite lookup_delete_ne|].
      eapply callbacks_alter_other; [done| |done|done].
      destruct Hc as [_ Hreg]. apply (Hreg fd n Hfd).
    + unfold remove_notifier, bind.
      by rewrite (enable_notifier_unregistered _ _ _ Hfd).
  - destruct (key_event_registry key pressed st) as (calls & closes & -> & _).
    simpl. split; [done|]. by apply callbacks_agree.
Qed.

(** X4.  After any run of successful calls on a new screen, a readable
    descriptor calls exactly the device registered for it, once, when its
    notifier is enabled, and nothing when it is disabled or when the
    descriptor is not registered. *)
Theorem callbacks_after_run cs st fd :
  run cs initial = (Ret tt, st) ->
  match notifiers st !! fd with
  | Some n =>
      exists q k, children st !! n = Some q /\ fileno k = fd /\
                  callbacks st fd = if isEnabled q then [k] else []
  | None => callbacks st fd = []
  end.
Proof.
  intros Hrun.
  destruct (run_invariant _ _ _ Hrun consistent_initial one_slot_each_initial)
    as [Hc Hone].
  rewrite (callbacks_registered _ fd Hc).
  destruct (notifiers st !! fd) as [n|] eqn:Hfd; [|done].
  destruct (Hone fd n Hfd) as (k & Hk & Hfk).
  destruct (children st !! n) as [q|]; [|done].
  simpl in Hk. injection Hk as Hk. exists q, k. by rewrite Hk.
Qed.

(** The callbacks of a registered descriptor after [enable_notifier]. *)
Lemma callbacks_enable_notifier st fd n q enabled :
  consistent st ->
  notifiers st !! fd = Some n -> children st !! n = Some q ->
  exists st1,
    enable_notifier fd enabled st = (Ret tt, st1) /\
    notifiers st1 = notifiers st /\
    children st1 !! n =
      Some {| socket := socket q; isEnabled := enabled; slots := slots q |} /\
    consistent st1 /\
    callbacks st1 fd = if enabled then slots q else [].
Proof.
  intros Hc Hfd Hq.
  pose proof (consistent_enable_notifier fd enabled st Hc) as Hc1.
  rewrite (enable_notifier_registered _ _ _ _ Hfd) in Hc1. cbn [snd] in Hc1.
  eexists. split; [by apply enable_notifier_registered|].
  split; [done|]. split; [by simpl; rewrite lookup_alter_eq, Hq|].
  split; [done|].
  rewrite (callbacks_registered _ fd Hc1). simpl.
  by rewrite Hfd, lookup_alter_eq, Hq.
Qed.

(** X5.  After any run of successful calls on a new screen, disabling a
    registered descriptor keeps it registered and stops its callbacks, and
    enabling it again brings back the callback of its device. *)
Theorem disable_then_enable cs st fd :
  run cs initial = (Ret tt, st) ->
  is_Some (notifiers st !! fd) ->
  exists k st1 st2,
    enable_notifier fd false st = (Ret tt, st1) /\
    notifiers st1 = notifiers st /\
    callbacks st1 fd = [] /\
    enable_notifier fd true st1 = (Ret tt, st2) /\
    fileno k = fd /\
    callbacks st2 fd = [k].
Proof.
  intros Hrun [n Hfd].
  destruct (run_invariant _ _ _ Hrun consistent_initial one_slot_each_initial)
    as [Hc Hone].
  destruct (Hone fd n Hfd) as (k & Hk & Hfk).
  destruct (children st !! n) as [q|] eqn:Hq; [|done].
  simpl in Hk. injection Hk as Hk.
  destruct (callbacks_enable_notifier st fd n q false Hc Hfd Hq)
    as (st1 & Hrun1 & Hn1 & Hq1 & Hc1 & Hcb1).
  assert (notifiers st1 !! fd = Some n) as Hfd1 by by rewrite Hn1.
  destruct (callbacks_enable_notifier st1 fd n _ true Hc1 Hfd1 Hq1)
    as (st2 & Hrun2 & _ & _ & _ & Hcb2).
  exists k, st1, st2. simpl in Hcb2. by rewrite Hk in Hcb2.
Qed.

(** X6.  A key event never raises and never touches the registry; it asks
    for a close only for a released [Q], and whatever it forwards is
    [handle_button] with code 1 or 2 and the event's own [pressed], at most
    two calls. *)
Theorem key_event_frame key pressed st :
  exists calls,
    (_key_event key pressed st).1 = Ret tt /\
    notifiers (_key_event key pressed st).2 = notifiers st /\
    children (_key_event key pressed st).2 = children st /\
    seph (_key_event key pressed st).2 = seph st ++ calls /\
    (length calls <= 2)%nat /\
    Forall (fun c => c = handle_button 1 pressed \/
                     c = handle_button 2 pressed) calls /\
    app_close (_key_event key pressed st).2 =
      if decide (key = Key_Q /\ pressed = false)
      then S (app_close st) else app_close st.
Proof.
  destruct st as [ns ch nx cl sp]. unfold _key_event.
  destruct (decide (key = Key_Left \/ key = Key_Right)) as [[-> | ->] | Hlr].
  - exists [handle_button 1 pressed]. repeat split; [simpl; lia|].
    constructor; [by left|constructor].
  - exists [handle_button 2 pressed]. repeat split; [simpl; lia|].
    constructor; [by right|constructor].
  - destruct (decide (key = Key_Down)) as [-> | Hd].
    + exists [handle_button 1 pressed; handle_button 2 pressed].
      repeat split.
      * unfold bind, seph_do, modify. simpl. by rewrite <- app_assoc.
      * simpl. lia.
      * constructor; [by left|]. constructor; [by right|constructor].
    + destruct (decide (key = Key_Q /\ pressed = false)) as [Hq|Hq];
        exists []; simpl; rewrite app_nil_r;
        (repeat split; [lia|constructor]).
Qed.

(** A key event in one equation. *)
Lemma key_event_run key pressed st :
  _key_event key pressed st =
    (Ret tt,
     {| notifiers := notifiers st; children := children st;
        next_object := next_object st;
        app_close := if decide (key = Key_Q /\ pressed = false)
                     then S (app_close st) else app_close st;
        seph := seph st ++
                ((fun b => handle_button b pressed) <$>
                   if decide (key = Key_Left) then [1]
                   else if decide (key = Key_Right) then [2]
                   else if decide (key = Key_Down) then [1; 2] else []) |}).
Proof.
  destruct st as [ns ch nx cl sp]. unfold _key_event.
  destruct (decide (key = Key_Left)) as [-> | Hl]; [reflexivity|].
  destruct (decide (key = Key_Right)) as [-> | Hr]; [reflexivity|].
  destruct (decide (key = Key_Left \/ key = Key_Right)) as [[?|?]|_];
    [done..|].
  destruct (decide (key = Key_Down)) as [-> | Hd].
  { unfold bind, seph_do, modify. simpl. by rewrite <- app_assoc. }
  destruct (decide (key = Key_Q /\ pressed = false)) as [Hq|Hq];
    simpl; by rewrite app_nil_r.
Qed.

(** X16.  A key pressed and then released: every button the press forwards
    is forwarded again as released, in the same order ([Left] 1, [Right] 2,
    [Down] 1 then 2, nothing for other keys); only [Q] asks for a close,
    once; the registry is not touched. *)
Theorem key_press_then_release key st :
  let st2 := (keyReleaseEvent key (keyPressEvent key st).2).2 in
  let bs := if decide (key = Key_Left) then [1]
            else if decide (key = Key_Right) then [2]
            else if decide (key = Key_Down) then [1; 2] else [] in
  (keyPressEvent key st).1 = Ret tt /\
  (keyReleaseEvent key (keyPressEvent key st).2).1 = Ret tt /\
  seph st2 =
    seph st ++ ((fun b => handle_button b true) <$> bs)
            ++ ((fun b => handle_button b false) <$> bs) /\
  app_close st2 =
    (if decide (key = Key_Q) then S (app_close st) else app_close st) /\
  notifiers st2 = notifiers st /\ children st2 = children st.
Proof.
  intros st2 bs. subst st2. unfold keyPressEvent, keyReleaseEvent.
  rewrite (key_event_run key true st).
  rewrite (key_event_run key false). cbn [fst snd seph app_close notifiers
    children next_object]. fold bs.
  split; [done|]. split; [done|]. split; [by rewrite <- app_assoc|].
  split; [|done].
  destruct (decide (key = Key_Q)) as [-> | Hq].
  - destruct (decide (Key_Q = Key_Q /\ true = false)) as [[_ ?]|_]; [done|].
    by destruct (decide (Key_Q = Key_Q /\ false = false)) as [_|[]].
  - destruct (decide (key = Key_Q /\ true = false)) as [[? _]|_]; [done|].
    by destruct (decide (key = Key_Q /\ false = false)) as [[? _]|_].
Qed.

(** X17.  [add_notifier] builds and connects its notifier before it checks
    for a duplicate: when the descriptor is already registered the call
    raises, yet the new notifier stays behind enabled and connected, so the
    device is called back on that descriptor, and the registry is no longer
    consistent. *)
Theorem add_notifier_duplicate_leaves_callback klass st :
  consistent st ->
  is_Some (notifiers st !! fileno klass) ->
  (add_notifier klass st).1 = Raise AssertionError /\
  klass ∈ callbacks (add_notifier klass st).2 (fileno klass) /\
  ~ consistent (add_notifier klass st).2.
Proof.
  intros [Hc Hn] [n Hfd]. rewrite (add_notifier_duplicate _ _ _ Hfd).
  split; [done|]. split.
  - apply elem_of_callbacks. simpl.
    exists (next_object st). eexists. split; [apply lookup_insert_eq|].
    simpl. repeat split. apply list_elem_of_here.
  - intros [Hc' _]. simpl in Hc'.
    destruct (Hc' (next_object st) _ (lookup_insert_eq _ _ _)) as [_ Hreg].
    simpl in Hreg. rewrite Hfd in Hreg.
    assert (Some n = Some (next_object st)) as Heq by by apply Hreg.
    injection Heq as ->.
    pose proof (Hn _ _ Hfd) as Hq. simpl in Hq.
    destruct (children st !! next_object st) as [q|] eqn:Hch; [|done].
    destruct (Hc _ _ Hch). lia.
Qed.

End RegistryFacts.

(** ** More on pointer events and the window *)
Section WindowFacts.

Import App Gesture.

Lemma mouseMoveEvent_run st p g :
  mouse_offset st = Some p ->
  mouseMoveEvent g st = (Ret tt, (move (g.1 - p.1, g.2 - p.2) st).2).
Proof.
  intros Hoff. unfold mouseMoveEvent, bind, get_mouse_offset, move, modify.
  destruct (mouse_offset st) as [p'|] eqn:Hst; [|done].
  injection Hoff as ->. simpl. rewrite Hst. simpl. by rewrite Hst.
Qed.

Lemma mouseMoveEvents_run gs st p :
  mouse_offset st = Some p ->
  mouseMoveEvents gs st =
    (Ret tt,
     match last gs with
     | Some g => (move (g.1 - p.1, g.2 - p.2) st).2
     | None => st
     end).
Proof.
  revert st. induction gs as [|g gs IH]; intros st Hoff; [done|].
  simpl. unfold bind. rewrite (mouseMoveEvent_run _ p g Hoff).
  rewrite IH by done. rewrite last_cons.
  destruct (last gs) as [g'|]; [|done].
  by destruct st.
Qed.

(** X7.  [__init__] does not create [mouse_offset]: on the window it
    builds, a release or a move that comes before any press raises
    [AttributeError], forwards nothing and changes nothing. *)
Theorem release_before_press qt_app model display settings server_seph r g :
  let a := Window.app
             (Window.__init__ qt_app model display settings server_seph) in
  seph a = server_seph /\
  mouseReleaseEvent r a = (Raise AttributeError, a) /\
  mouseMoveEvent g a = (Raise AttributeError, a).
Proof.
  destruct model as [[w h] [bx by_] [sx sy]]. by cbv zeta.
Qed.

(** X8.  With [pixel_size] 0 a press stores its position and then raises
    [ZeroDivisionError]: nothing is forwarded and the cursor is not
    changed; a release after it raises the same way and changes nothing. *)
Theorem press_with_pixel_size_zero st raw r :
  pixel_size st = 0 ->
  exists st1,
    mousePressEvent raw st = (Raise ZeroDivisionError, st1) /\
    mouse_offset st1 = Some raw /\
    seph st1 = seph st /\
    override_cursor st1 = override_cursor st /\
    mouseReleaseEvent r st1 = (Raise ZeroDivisionError, st1).
Proof.
  intros Hps. destruct st as [sp w h ps bx by_ off cur wp]. simpl in Hps.
  subst ps. eexists. split; [reflexivity|]. by repeat split.
Qed.

(** X9.  With a non-zero [pixel_size], a press at [p], any moves and a
    release at [r] return normally; the link gets the touch for [p] pressed
    and then released, both or neither; the override cursor is back to what
    it was; and the window has followed the pointer, so that the last
    pointer position is still [p] relative to the window. *)
Theorem drag_run st p gs r :
  pixel_size st <> 0 ->
  exists st',
    drag p gs r st = (Ret tt, st') /\
    seph st' = seph st ++ spec_touch st p true ++ spec_touch st p false /\
    override_cursor st' = override_cursor st /\
    mouse_offset st' = Some p /\
    window_pos st' =
      match last gs with
      | Some g => (g.1 - p.1, g.2 - p.2)
      | None => window_pos st
      end.
Proof.
  intros Hps. unfold drag. unfold bind at 1.
  rewrite (mousePressEvent_run _ _ Hps).
  set (st1 := {| seph := seph st ++ spec_touch st p true;
                 mouse_offset := Some p |}).
  unfold bind at 1. rewrite (mouseMoveEvents_run gs st1 p eq_refl).
  set (st2 := match last gs with Some _ => _ | None => _ end).
  assert (mouse_offset st2 = Some p /\ pixel_size st2 = pixel_size st /\
          seph st2 = seph st1 /\ override_cursor st2 = override_cursor st1 /\
          spec_touch st2 p false = spec_touch st p false /\
          window_pos st2 = match last gs with
                           | Some g => (g.1 - p.1, g.2 - p.2)
                           | None => window_pos st
                           end)
    as (Hoff & Hps2 & Hseph & Hcur & Htouch & Hpos).
  { subst st2. by destruct (last gs). }
  unfold mouseReleaseEvent.
  rewrite (touch_stored st2 p false _ Hoff); [|by rewrite Hps2].
  eexists. split; [reflexivity|]. simpl.
  rewrite Hseph, Hcur, Htouch. simpl. by rewrite <- app_assoc.
Qed.

Lemma fully_visible_within wx wy ww wh screen :
  Window.fully_visible wx wy ww wh screen = true <->
  Window.within
    {| Window.left := wx; Window.top := wy;
       Window.rwidth := ww; Window.rheight := wh |} screen.
Proof.
  unfold Window.fully_visible, Window.within. simpl.
  rewrite !andb_true_iff, !Z.geb_le, !Z.leb_le. lia.
Qed.

Lemma visible_on_some_screen wx wy ww wh l :
  existsb (Window.fully_visible wx wy ww wh) l = true <->
  Exists (Window.within
            {| Window.left := wx; Window.top := wy;
               Window.rwidth := ww; Window.rheight := wh |}) l.
Proof.
  rewrite existsb_exists, Exists_exists. split.
  - intros (s & Hin & Hs). exists s.
    split; [by apply list_elem_of_In|by apply fully_visible_within].
  - intros (s & Hin & Hs). exists s.
    split; [by apply list_elem_of_In|by apply fully_visible_within].
Qed.

(** Where [__init__] puts the window, in one equation. *)
Lemma init_position qt_app model display settings sp :
  let w := Window.__init__ qt_app model display settings sp in
  let req := Window.requested qt_app display settings in
  let size := Window.window_size model display in
  let visible :=
    existsb (Window.fully_visible req.1 req.2 size.1 size.2)
            (Window.screens qt_app) in
  let pos :=
    if visible then req
    else (Window.left (Window.primaryScreen qt_app) + 10,
          Window.top (Window.primaryScreen qt_app) + 10) in
  window_pos (Window.app w) = pos /\
  Window.geometry w =
    {| Window.left := pos.1; Window.top := pos.2;
       Window.rwidth := size.1; Window.rheight := size.2 |} /\
  Window.fixed_size w = size /\
  Window.warned w = negb visible.
Proof.
  destruct model as [[w h] [bx by_] [sx sy]].
  destruct display as [ps [dx|] [dy|] top];
    destruct settings as [[sx'|] [sy'|]];
    cbv zeta; unfold Window.__init__, Window.requested, Window.window_size,
      Window.value, Window.DEFAULT_WINDOW_X, Window.DEFAULT_WINDOW_Y;
    simpl; destruct (existsb _ _); done.
Qed.

Lemma init_fields qt_app model display settings sp :
  let w := Window.__init__ qt_app model display settings sp in
  let ps := Window.pixel_size display in
  seph (Window.app w) = sp /\
  pixel_size (Window.app w) = ps /\
  (_width (Window.app w), _height (Window.app w)) =
    Window.screen_size model /\
  (box_position_x (Window.app w), box_position_y (Window.app w)) =
    Window.box_position model /\
  Window.m_pos w =
    (box_position_x (Window.app w) * ps, box_position_y (Window.app w) * ps) /\
  Window.m_size w =
    ((Window.screen_size model).1 * ps, (Window.screen_size model).2 * ps).
Proof. by destruct model as [[w h] [bx by_] [sx sy]]. Qed.

(** The touch for a position given by widget pixel and offset within the
    pixel. *)
Lemma spec_touch_widget_pixel st px py kx ky pressed :
  0 < pixel_size st ->
  0 <= kx < pixel_size st -> 0 <= ky < pixel_size st ->
  spec_touch st
    (box_position_x st * pixel_size st + px * pixel_size st + kx,
     box_position_y st * pixel_size st + py * pixel_size st + ky) pressed =
  if (1 <=? px) && (px <=? _width st) && (1 <=? py) && (py <=? _height st)
  then [handle_finger (px - 1) (py - 1) pressed] else [].
Proof.
  intros Hps Hkx Hky. unfold spec_touch, spec_translate. simpl.
  set (ps := pixel_size st) in *.
  replace (box_position_x st * ps + px * ps + kx)
    with ((box_position_x st + px) * ps + kx) by lia.
  replace (box_position_y st * ps + py * ps + ky)
    with ((box_position_y st + py) * ps + ky) by lia.
  rewrite !Z.div_add_l by lia. rewrite !Z.div_small by lia.
  replace (box_position_x st + px + 0 - (box_position_x st + 1))
    with (px - 1) by lia.
  replace (box_position_y st + py + 0 - (box_position_y st + 1))
    with (py - 1) by lia.
  assert ((0 <=? px - 1) = (1 <=? px)) as ->.
  { destruct (Z.leb_spec 0 (px - 1)), (Z.leb_spec 1 px); lia || done. }
  assert ((0 <=? py - 1) = (1 <=? py)) as ->.
  { destruct (Z.leb_spec 0 (py - 1)), (Z.leb_spec 1 py); lia || done. }
  assert ((px - 1 <? _width st) = (px <=? _width st)) as ->.
  { destruct (Z.ltb_spec (px - 1) (_width st)), (Z.leb_spec px (_width st));
      lia || done. }
  assert ((py - 1 <? _height st) = (py <=? _height st)) as ->.
  { destruct (Z.ltb_spec (py - 1) (_height st)),
      (Z.leb_spec py (_height st)); lia || done. }
  done.
Qed.

(** X10.  [__init__] puts the paint widget at [box_position * pixel_size],
    and the translation subtracts [box_position + 1]: with a positive
    [pixel_size], a press anywhere on the widget's pixel [(px, py)] is
    translated to [(px - 1, py - 1)], so it is forwarded exactly when
    [1 <= px <= width] and [1 <= py <= height]. *)
Theorem press_on_widget_pixel
    qt_app model display settings sp px py kx ky :
  let w := Window.__init__ qt_app model display settings sp in
  let ps := Window.pixel_size display in
  0 < ps -> 0 <= kx < ps -> 0 <= ky < ps ->
  let pos := ((Window.m_pos w).1 + px * ps + kx,
              (Window.m_pos w).2 + py * ps + ky) in
  (mousePressEvent pos (Window.app w)).1 = Ret tt /\
  seph (mousePressEvent pos (Window.app w)).2 =
    sp ++
    if (1 <=? px) && (px <=? (Window.screen_size model).1) &&
       (1 <=? py) && (py <=? (Window.screen_size model).2)
    then [handle_finger (px - 1) (py - 1) true] else [].
Proof.
  intros w ps Hps Hkx Hky pos.
  destruct (init_fields qt_app model display settings sp)
    as (Hsp & Hpsa & Hsize & _ & Hmpos & _).
  fold w ps in Hsp, Hpsa, Hsize, Hmpos.
  set (a := Window.app w) in *.
  assert (pos = (box_position_x a * pixel_size a + px * pixel_size a + kx,
                 box_position_y a * pixel_size a + py * pixel_size a + ky))
    as -> by (subst pos; by rewrite Hmpos, Hpsa).
  rewrite (mousePressEvent_run a _ ltac:(rewrite Hpsa; lia)).
  split; [done|]. cbn [snd seph].
  rewrite spec_touch_widget_pixel by (rewrite Hpsa; lia).
  rewrite Hsp. by rewrite <- Hsize.
Qed.

(** X11.  The window goes to the position asked for ([display.x] and
    [display.y], else the saved ones, else the default) when some screen
    holds the whole window there; otherwise [__init__] prints its warning
    and puts the window 10 pixels right of and below the primary screen's
    corner.  The window's size is the screen plus the box, times
    [pixel_size], in both cases. *)
Theorem window_placement qt_app model display settings sp :
  let w := Window.__init__ qt_app model display settings sp in
  let req := Window.requested qt_app display settings in
  let size := Window.window_size model display in
  let there :=
    {| Window.left := req.1; Window.top := req.2;
       Window.rwidth := size.1; Window.rheight := size.2 |} in
  (Exists (Window.within there) (Window.screens qt_app) ->
     Window.geometry w = there /\ Window.warned w = false /\
     window_pos (Window.app w) = req) /\
  (~ Exists (Window.within there) (Window.screens qt_app) ->
     Window.geometry w =
       {| Window.left := Window.left (Window.primaryScreen qt_app) + 10;
          Window.top := Window.top (Window.primaryScreen qt_app) + 10;
          Window.rwidth := size.1; Window.rheight := size.2 |} /\
     Window.warned w = true) /\
  Window.fixed_size w = size.
Proof.
  intros w req size there.
  destruct (init_position qt_app model display settings sp)
    as (Hpos & Hgeo & Hfix & Hwarn).
  fold w req size in Hpos, Hgeo, Hfix, Hwarn.
  split; [|split; [|done]].
  - intros Hvis. apply visible_on_some_screen in Hvis.
    rewrite Hvis in *. by rewrite Hgeo, Hwarn, Hpos.
  - intros Hnot.
    destruct (existsb _ _) eqn:Hvis.
    + exfalso. apply Hnot. by apply visible_on_some_screen.
    + by rewrite Hgeo, Hwarn.
Qed.

(** X12.  Close, then start again with no position given: the window comes
    back where it was closed whenever some screen holds the whole window
    there. *)
Theorem closeEvent_then_init a qt_app model display settings sp :
  Window.x display = None -> Window.y display = None ->
  let size := Window.window_size model display in
  Exists (Window.within
            {| Window.left := (window_pos a).1;
               Window.top := (window_pos a).2;
               Window.rwidth := size.1; Window.rheight := size.2 |})
         (Window.screens qt_app) ->
  window_pos
    (Window.app
       (Window.__init__ qt_app model display
          (Window.closeEvent a settings) sp)) = window_pos a.
Proof.
  intros Hx Hy size Hvis.
  destruct (init_position qt_app model display
              (Window.closeEvent a settings) sp) as (Hpos & _).
  rewrite Hpos. unfold Window.requested. rewrite Hx, Hy.
  cbn [Window.closeEvent Window.window_x Window.window_y fst snd].
  apply visible_on_some_screen in Hvis. fold size. rewrite Hvis.
  by destruct (window_pos a).
Qed.

End WindowFacts.

(** ** More on paint events *)
Section PaintEventFacts.

Import PaintWidget Scene.

(** What a flush leaves alone. *)
Lemma flush_frame st :
  pixel_size (flush st) = pixel_size st /\
  size (flush st) = size st /\
  painted (flush st) = painted st /\
  scaled_calls (flush st) = scaled_calls st /\
  update_calls (flush st) = update_calls st.
Proof. rewrite flush_unfold. by destruct (vnc st). Qed.

Lemma dirty_flush st : dirty (flush st) = ∅.
Proof.
  rewrite flush_unfold. unfold dirty, deref. simpl.
  by rewrite lookup_insert_eq.
Qed.

Lemma painted_blit st : painted (blit st) = painted st ++ [shown st].
Proof. unfold blit, shown. simpl. by case_bool_decide. Qed.

Lemma paintEvent_clean st : dirty st = ∅ -> paintEvent st = blit st.
Proof. intros Hd. unfold paintEvent. by rewrite bool_decide_eq_true_2. Qed.

(** X13.  [__init__] resizes the paint widget to the screen size times
    [pixel_size].  On a widget of that size and scale, with a non-zero
    [pixel_size], a paint event with pending pixels commits a pixmap of
    exactly the screen's size and draws on the widget a pixmap of exactly
    the widget's size. *)
Theorem paintEvent_sizes qt_app model display settings sp st :
  let w := Window.__init__ qt_app model display settings sp in
  Window.pixel_size display <> 0 ->
  size st = Window.m_size w ->
  pixel_size st = Window.pixel_size display ->
  dirty st <> ∅ ->
  (width (mPixmap (paintEvent st)), height (mPixmap (paintEvent st))) =
    Window.screen_size model /\
  exists p, painted (paintEvent st) = painted st ++ [p] /\
            (width p, height p) = Window.m_size w.
Proof.
  intros w Hps Hsize Hscale Hdirty.
  destruct (init_fields qt_app model display settings sp)
    as (_ & _ & _ & _ & _ & Hm).
  fold w in Hm. rewrite Hm in *. clear Hm.
  rewrite (paintEvent_pending _ Hdirty).
  destruct (flush_frame st) as (Hfps & _ & Hfp & _).
  pose proof (flush_pixmap_size st) as Hpm.
  rewrite Hsize, Hscale, (QSize_div_resize _ _ _ Hps) in Hpm.
  split; [by destruct (Window.screen_size model)|].
  exists (shown (flush st)). rewrite painted_blit, Hfp. split; [done|].
  assert (width (mPixmap (flush st)) = (Window.screen_size model).1) as Hw
    by exact (f_equal fst Hpm).
  assert (height (mPixmap (flush st)) = (Window.screen_size model).2) as Hh
    by exact (f_equal snd Hpm).
  unfold shown. rewrite Hfps, Hscale.
  case_bool_decide as Hone.
  - rewrite Hw, Hh, Hone. f_equal; lia.
  - unfold scaled. cbn [width height]. by rewrite Hw, Hh.
Qed.

(** X14.  A second paint event with no write in between commits nothing and
    sends nothing to the mirror sink: pixmap, dictionaries, working
    snapshot, drawn points and [redraw] calls stay as the first left them,
    and the widget is drawn with the same pixmap again. *)
Theorem paintEvent_again st :
  let st1 := paintEvent st in
  let st2 := paintEvent st1 in
  mPixmap st2 = mPixmap st1 /\
  heap st2 = heap st1 /\ fb_pixels st2 = fb_pixels st1 /\
  fb_workingSnapshot st2 = fb_workingSnapshot st1 /\
  drawn st2 = drawn st1 /\
  vnc st2 = vnc st1 /\
  exists l p, painted st1 = l ++ [p] /\ painted st2 = l ++ [p; p].
Proof.
  intros st1 st2.
  assert (exists s0, st1 = blit s0 /\ dirty s0 = ∅) as (s0 & Hst1 & Hd0).
  { subst st1. unfold paintEvent. case_bool_decide as Hd.
    - by exists st.
    - exists (flush st). split; [done|apply dirty_flush]. }
  assert (dirty st1 = ∅) as Hd1 by (by rewrite Hst1).
  subst st2. rewrite (paintEvent_clean _ Hd1).
  repeat split.
  exists (painted s0), (shown s0).
  rewrite painted_blit, Hst1, painted_blit. split; [done|].
  by rewrite <- app_assoc.
Qed.

(** X15.  A pixel committed by one paint event survives a later paint event
    that has no write for it: it still shows the colour of its last
    write. *)
Theorem committed_pixel_survives st st' x y c :
  dirty st <> ∅ ->
  dirty st !! (x, y) = Some c ->
  inside (mPixmap (paintEvent st)) x y = true ->
  mPixmap st' = mPixmap (paintEvent st) ->
  size st' = size st -> pixel_size st' = pixel_size st ->
  dirty st' <> ∅ ->
  dirty st' !! (x, y) = None ->
  pixelAt (mPixmap (paintEvent st')) x y = Some (fromRgb c).
Proof.
  intros Hd Hc Hin Hpm Hsize Hps Hd' Hnone.
  rewrite (paintEvent_pending _ Hd) in Hin, Hpm.
  rewrite (paintEvent_pending _ Hd').
  change (mPixmap (blit (flush st))) with (mPixmap (flush st)) in Hin, Hpm.
  change (mPixmap (blit (flush st'))) with (mPixmap (flush st')).
  assert (inside (mPixmap (flush st')) x y = true) as Hin'.
  { pose proof (flush_pixmap_size st) as H1.
    pose proof (flush_pixmap_size st') as H2.
    rewrite Hsize, Hps, <- H1 in H2.
    assert (width (mPixmap (flush st')) = width (mPixmap (flush st))) as Hw
      by exact (f_equal fst H2).
    assert (height (mPixmap (flush st')) = height (mPixmap (flush st))) as Hh
      by exact (f_equal snd H2).
    unfold inside in *. by rewrite Hw, Hh. }
  unfold pixelAt. rewrite Hin'. f_equal.
  rewrite (flush_other_pixel _ _ _ Hnone), Hpm, Hin.
  by apply flush_pixel.
Qed.

End PaintEventFacts.

(** ** Instances of the further properties *)
Section MoreExamples.

Import Scene.

Lemma remove_notifier_then_KeyError_witness :
  is_Some (Screen.notifiers Screen.two_devices !! 5) /\
  exists st1,
    Screen.remove_notifier 5 Screen.two_devices = (Ret tt, st1) /\
    Screen.remove_notifier 5 st1 = (Raise (KeyError 5), st1).
Proof.
  assert (Hreg : is_Some (Screen.notifiers Screen.two_devices !! 5))
    by (exists 0%nat; reflexivity).
  split; [exact Hreg|].
  destruct (remove_notifier_then_KeyError 5 Screen.two_devices Hreg)
    as (st1 & Hrm & Hagain & _).
  exists st1. split; [exact Hrm|exact Hagain].
Defined.

Lemma add_then_remove_notifier_witness :
  Screen.consistent Screen.two_devices /\
  Screen.notifiers Screen.two_devices !! Screen.fileno third_link = None /\
  exists st2,
    (Screen.add_notifier third_link ;;; Screen.remove_notifier 9)
      Screen.two_devices = (Ret tt, st2) /\
    Screen.notifiers st2 = Screen.notifiers Screen.two_devices.
Proof.
  split; [apply consistent_two_devices|]. split; [reflexivity|].
  destruct (add_then_remove_notifier third_link Screen.two_devices
              consistent_two_devices eq_refl) as (st2 & Hrun & Hsame & _).
  exists st2. split; [exact Hrun|exact Hsame].
Defined.

Lemma call_leaves_other_descriptors_witness :
  Screen.consistent Screen.two_devices /\
  Calls.call_fd (Calls.RemoveNotifier 5) <> Some 7 /\
  Screen.notifiers
    (Calls.run_call (Calls.RemoveNotifier 5) Screen.two_devices).2 !! 7 =
    Screen.notifiers Screen.two_devices !! 7.
Proof.
  assert (Hne : Calls.call_fd (Calls.RemoveNotifier 5) <> Some 7)
    by (simpl; congruence).
  split; [apply consistent_two_devices|]. split; [exact Hne|].
  exact (proj1 (call_leaves_other_descriptors (Calls.RemoveNotifier 5)
                  Screen.two_devices 7 consistent_two_devices Hne)).
Defined.

Lemma callbacks_after_run_witness :
  Calls.run two_registrations Screen.initial =
    (Ret tt, Screen.two_devices) /\
  exists q k, Screen.children Screen.two_devices !! 0%nat = Some q /\
              Screen.fileno k = 5 /\
              Screen.callbacks Screen.two_devices 5 =
                if Screen.isEnabled q then [k] else [].
Proof.
  assert (Hrun : Calls.run two_registrations Screen.initial =
                   (Ret tt, Screen.two_devices)) by reflexivity.
  split; [exact Hrun|].
  exact (callbacks_after_run two_registrations Screen.two_devices 5 Hrun).
Defined.

Lemma disable_then_enable_witness :
  Calls.run two_registrations Screen.initial =
    (Ret tt, Screen.two_devices) /\
  is_Some (Screen.notifiers Screen.two_devices !! 7) /\
  exists k st1 st2,
    Screen.enable_notifier 7 false Screen.two_devices = (Ret tt, st1) /\
    Screen.callbacks st1 7 = [] /\
    Screen.enable_notifier 7 true st1 = (Ret tt, st2) /\
    Screen.callbacks st2 7 = [k].
Proof.
  assert (Hrun : Calls.run two_registrations Screen.initial =
                   (Ret tt, Screen.two_devices)) by reflexivity.
  assert (Hreg : is_Some (Screen.notifiers Screen.two_devices !! 7))
    by (exists 1%nat; reflexivity).
  split; [exact Hrun|]. split; [exact Hreg|].
  destruct (disable_then_enable two_registrations Screen.two_devices 7
              Hrun Hreg)
    as (k & st1 & st2 & Hoff & _ & Hnone & Hon & _ & Hback).
  exists k, st1, st2. repeat split; assumption.
Defined.

Lemma press_with_pixel_size_zero_witness :
  App.pixel_size zero_scale_app = 0 /\
  exists st1,
    App.mousePressEvent (8, 8) zero_scale_app =
      (Raise ZeroDivisionError, st1) /\
    App.seph st1 = [].
Proof.
  split; [reflexivity|].
  destruct (press_with_pixel_size_zero zero_scale_app (8, 8) (0, 0) eq_refl)
    as (st1 & Hpress & _ & Hseph & _).
  exists st1. split; [exact Hpress|exact Hseph].
Defined.

Lemma drag_run_witness :
  App.pixel_size App.example_app <> 0 /\
  exists st',
    Gesture.drag (8, 8) [(100, 100); (120, 90)] (0, 0) App.example_app =
      (Ret tt, st') /\
    App.window_pos st' = (112, 82) /\
    App.override_cursor st' = [].
Proof.
  assert (Hps : App.pixel_size App.example_app <> 0) by (simpl; lia).
  split; [exact Hps|].
  destruct (drag_run App.example_app (8, 8) [(100, 100); (120, 90)] (0, 0)
              Hps) as (st' & Hrun & _ & Hcur & _ & Hpos).
  exists st'. split; [exact Hrun|]. split; [exact Hpos|exact Hcur].
Defined.

Lemma press_on_widget_pixel_witness :
  0 < Window.pixel_size scale_two /\
  App.seph
    (App.mousePressEvent (20 * 2 + 1 * 2 + 1, 13 * 2 + 1 * 2 + 0)
       (Window.app
          (Window.__init__ one_screen boxed_model scale_two no_settings [])
       )).2 = [handle_finger 0 0 true].
Proof.
  assert (Hps : 0 < Window.pixel_size scale_two) by (simpl; lia).
  split; [exact Hps|].
  exact (proj2 (press_on_widget_pixel one_screen boxed_model scale_two
                  no_settings [] 1 1 1 0 Hps
                  ltac:(simpl; lia) ltac:(simpl; lia))).
Defined.

Lemma window_placement_witness :
  Window.geometry
    (Window.__init__ one_screen boxed_model scale_two no_settings []) =
    {| Window.left := 10; Window.top := 10;
       Window.rwidth := 336; Window.rheight := 180 |}.
Proof.
  apply (proj1 (window_placement one_screen boxed_model scale_two
                  no_settings [])).
  apply Exists_cons_hd. unfold Window.within. simpl. lia.
Defined.

Lemma closeEvent_then_init_witness :
  Window.x scale_two = None /\ Window.y scale_two = None /\
  App.window_pos
    (Window.app
       (Window.__init__ one_screen boxed_model scale_two
          (Window.closeEvent
             (Gesture.drag (8, 8) [(200, 300)] (0, 0) App.example_app).2
             no_settings) [])) = (192, 292).
Proof.
  split; [reflexivity|]. split; [reflexivity|].
  apply (closeEvent_then_init
           (Gesture.drag (8, 8) [(200, 300)] (0, 0) App.example_app).2
           one_screen boxed_model scale_two no_settings [] eq_refl eq_refl).
  apply Exists_cons_hd. unfold Window.within. simpl. lia.
Defined.

Lemma paintEvent_sizes_witness :
  Window.pixel_size scale_two <> 0 /\
  PaintWidget.dirty PaintWidget.example_widget <> ∅ /\
  (PaintWidget.width
     (PaintWidget.mPixmap (PaintWidget.paintEvent PaintWidget.example_widget)),
   PaintWidget.height
     (PaintWidget.mPixmap (PaintWidget.paintEvent PaintWidget.example_widget)))
  = (4, 2).
Proof.
  assert (Hps : Window.pixel_size scale_two <> 0) by (simpl; lia).
  assert (Hdirty : PaintWidget.dirty PaintWidget.example_widget <> ∅).
  { intros Heq. apply (f_equal (fun m => m !! (1, 1))) in Heq.
    vm_compute in Heq. discriminate Heq. }
  split; [exact Hps|]. split; [exact Hdirty|].
  exact (proj1 (paintEvent_sizes one_screen tiny_model scale_two no_settings
                  [] PaintWidget.example_widget Hps eq_refl eq_refl Hdirty)).
Defined.

Lemma committed_pixel_survives_witness :
  PaintWidget.dirty example_widget_later !! (1, 1) = None /\
  PaintWidget.pixelAt
    (PaintWidget.mPixmap (PaintWidget.paintEvent example_widget_later)) 1 1 =
    Some (PaintWidget.fromRgb 0).
Proof.
  assert (Hdirty : PaintWidget.dirty PaintWidget.example_widget <> ∅).
  { intros Heq. apply (f_equal (fun m => m !! (1, 1))) in Heq.
    vm_compute in Heq. discriminate Heq. }
  assert (Hlater : PaintWidget.dirty example_widget_later <> ∅).
  { intros Heq. apply (f_equal (fun m => m !! (0, 0))) in Heq.
    vm_compute in Heq. discriminate Heq. }
  split; [reflexivity|].
  apply (committed_pixel_survives PaintWidget.example_widget
           example_widget_later 1 1 0 Hdirty); try reflexivity.
  exact Hlater.
Defined.

Lemma add_notifier_duplicate_leaves_callback_witness :
  Screen.consistent Screen.two_devices /\
  is_Some (Screen.notifiers Screen.two_devices
             !! Screen.fileno Screen.seph_link) /\
  Screen.seph_link ∈
    Screen.callbacks
      (Screen.add_notifier Screen.seph_link Screen.two_devices).2 5.
Proof.
  assert (Hreg : is_Some (Screen.notifiers Screen.two_devices
                            !! Screen.fileno Screen.seph_link))
    by (exists 0%nat; reflexivity).
  split; [apply consistent_two_devices|]. split; [exact Hreg|].
  destruct (add_notifier_duplicate_leaves_callback Screen.seph_link
              Screen.two_devices consistent_two_devices Hreg)
    as (_ & Hcb & _).
  exact Hcb.
Defined.

End MoreExamples.
